(** * wpp_parser: the WhatsApp transcript parser, embedded in Rocq

    A shallow embedding of [src/wpp_parser.py]: the compiled pattern
    [TIMESTAMP_PATTERN], run by a backtracking matcher with Python's [re]
    priorities (greedy and lazy repetition, lookahead, [$] without
    [re.MULTILINE], [re.DOTALL]), the [finditer] scan, the grouping loop of
    [parse] over an insertion-ordered dict, and [to_markdown].

    A Python [str] is modelled as a list of characters with code points
    below 256 ([list ascii]).  On that range [\d] is [0-9], and [\s] and
    [str.strip] use the same whitespace set (9-13, 28-32, 133, 160). *)

From Stdlib Require Import String Ascii List Bool Arith Lia.
Import ListNotations.

Local Open Scope char_scope.
Local Open Scope list_scope.

(** ** Text *)

Definition str := list ascii.

(** A string literal as a [str]. *)
Definition txt (s : string) : str := list_ascii_of_string s.

Definition str_eqb (a b : str) : bool :=
  if list_eq_dec ascii_dec a b then true else false.

(** ** Character classes *)

Definition code (c : ascii) : nat := nat_of_ascii c.

(** [\d] on code points below 256: the decimal digits [0] to [9]. *)
Definition isdigit (c : ascii) : bool :=
  ((48 <=? code c) && (code c <=? 57))%nat.

(** [\s], and the characters [str.strip] removes (Py_UNICODE_ISSPACE). *)
Definition isspace (c : ascii) : bool :=
  let n := code c in
  (((9 <=? n) && (n <=? 13)) || ((28 <=? n) && (n <=? 32))
   || (n =? 133) || (n =? 160))%nat.

(** [[^:]] *)
Definition notcolon (c : ascii) : bool := negb (Ascii.eqb c ":").

(** [.] under [re.DOTALL] *)
Definition anychar (_ : ascii) : bool := true.

(** The line boundaries of [str.splitlines] (a CR LF pair counts once). *)
Definition islinebreak (c : ascii) : bool :=
  let n := code c in
  (((10 <=? n) && (n <=? 13)) || ((28 <=? n) && (n <=? 30))
   || (n =? 133))%nat.

Definition LF : ascii := ascii_of_nat 10%nat.
Definition CR : ascii := ascii_of_nat 13%nat.

(** ** Regular expressions, as far as the pattern uses them *)

Inductive regex : Type :=
| Lit (c : ascii)                     (* a literal character *)
| Class (p : ascii -> bool)           (* one character of a class *)
| Cat (r1 r2 : regex)                 (* r1 r2 *)
| Alt (r1 r2 : regex)                 (* r1|r2 *)
| Star (p : ascii -> bool)            (* p*, greedy *)
| StarLazy (p : ascii -> bool)        (* p*?, lazy *)
| Group (name : string) (r : regex)   (* (?P<name>r) *)
| Lookahead (r : regex)               (* (?=r) *)
| Dollar.                             (* $, without re.MULTILINE *)

(** Captured groups of a match, latest binding first. *)
Definition env := list (string * str).

(** The text consumed between the suffix [s] and its later suffix [s']. *)
Definition consumed (s s' : str) : str :=
  firstn (length s - length s') s.

(** [p*]: take as many characters as possible, give them back one by one
    while the rest of the pattern fails. *)
Fixpoint star_greedy {A : Type} (p : ascii -> bool) (s : str)
    (k : str -> option A) : option A :=
  match s with
  | c :: s' =>
      if p c then
        match star_greedy p s' k with
        | Some a => Some a
        | None => k s
        end
      else k s
  | [] => k s
  end.

(** [p*?]: take as few characters as possible, one more each time the rest
    of the pattern fails. *)
Fixpoint star_lazy {A : Type} (p : ascii -> bool) (s : str)
    (k : str -> option A) : option A :=
  match k s with
  | Some a => Some a
  | None =>
      match s with
      | c :: s' => if p c then star_lazy p s' k else None
      | [] => None
      end
  end.

(** [$] without [re.MULTILINE]: at the end of the text, or just before a
    newline that is the last character of the text. *)
Definition at_end (s : str) : bool :=
  match s with
  | [] => true
  | c :: [] => Ascii.eqb c LF
  | _ => false
  end.

(** The backtracking matcher, in continuation-passing style: [rmatch r s e k]
    matches [r] at the front of [s] and hands the rest of the text and the
    groups to [k]; when [k] fails the next alternative of [r] is tried, in
    the order of Python's [re] module. *)
Fixpoint rmatch (r : regex) {A : Type} (s : str) (e : env)
    (k : str -> env -> option A) {struct r} : option A :=
  match r with
  | Lit c =>
      match s with
      | x :: s' => if Ascii.eqb x c then k s' e else None
      | [] => None
      end
  | Class p =>
      match s with
      | x :: s' => if p x then k s' e else None
      | [] => None
      end
  | Cat r1 r2 => rmatch r1 s e (fun s' e' => rmatch r2 s' e' k)
  | Alt r1 r2 =>
      match rmatch r1 s e k with
      | Some a => Some a
      | None => rmatch r2 s e k
      end
  | Star p => star_greedy p s (fun s' => k s' e)
  | StarLazy p => star_lazy p s (fun s' => k s' e)
  | Group name r1 =>
      rmatch r1 s e (fun s' e' => k s' ((name, consumed s s') :: e'))
  | Lookahead r1 =>
      match rmatch r1 s e (fun _ e' => Some e') with
      | Some e' => k s e'
      | None => None
      end
  | Dollar => if at_end s then k s e else None
  end.

(** ** TIMESTAMP_PATTERN *)

Definition digits2 : regex := Cat (Class isdigit) (Class isdigit).
Definition digits4 : regex := Cat digits2 digits2.

(** [\d{2}:\d{2}] *)
Definition hora_re : regex := Cat digits2 (Cat (Lit ":") digits2).

(** [\d{2}/\d{2}/\d{4}] *)
Definition data_re : regex :=
  Cat digits2 (Cat (Lit "/") (Cat digits2 (Cat (Lit "/") digits4))).

(** [\[(?P<hora>\d{2}:\d{2}), (?P<data>\d{2}/\d{2}/\d{4})\]] *)
Definition stamp_re : regex :=
  Cat (Lit "[") (Cat (Group "hora" hora_re) (Cat (Lit ",") (Cat (Lit " ")
    (Cat (Group "data" data_re) (Lit "]"))))).

(** [[^:]+:\s*] *)
Definition author_re : regex :=
  Cat (Cat (Class notcolon) (Star notcolon)) (Cat (Lit ":") (Star isspace)).

(** [\[\d{2}:\d{2}, \d{2}/\d{2}/\d{4}\]], the marker of the lookahead. *)
Definition marker_re : regex :=
  Cat (Lit "[") (Cat hora_re (Cat (Lit ",") (Cat (Lit " ")
    (Cat data_re (Lit "]"))))).

(** [(?=(?:\[\d{2}:\d{2}, \d{2}/\d{2}/\d{4}\])|$)] *)
Definition terminator_re : regex := Lookahead (Alt marker_re Dollar).

(** [(?P<mensagem>.*?)(?=...)] *)
Definition mensagem_re : regex :=
  Cat (Group "mensagem" (StarLazy anychar)) terminator_re.

(** The three lines of the pattern, compiled with [re.DOTALL]. *)
Definition TIMESTAMP_PATTERN : regex :=
  Cat (Cat stamp_re (Star isspace)) (Cat author_re mensagem_re).

(** ** Match objects and [finditer] *)

(** [match.group(name)]; every group of the pattern takes part in every
    match (lemma [match_here_groups]), so the default is never returned. *)
Fixpoint group (m : env) (name : string) : str :=
  match m with
  | [] => []
  | (n, v) :: m' => if String.eqb n name then v else group m' name
  end.

(** A match of the pattern that starts at the front of [s]: its groups and
    the text after its end. *)
Definition match_here (s : str) : option (env * str) :=
  rmatch TIMESTAMP_PATTERN s [] (fun s' e => Some (e, s')).

(** The leftmost match that starts in [s]. *)
Fixpoint search (s : str) : option (env * str) :=
  match match_here s with
  | Some m => Some m
  | None =>
      match s with
      | [] => None
      | _ :: s' => search s'
      end
  end.

(** The non-overlapping matches from left to right: each search resumes
    where the previous match ended.  A match of this pattern is never empty
    (lemma [match_here_shorter]), so the fuel [S (length s)] is never used
    up (lemma [finditer_unfold]). *)
Fixpoint finditer_from (fuel : nat) (s : str) : list env :=
  match fuel with
  | O => []
  | S fuel' =>
      match search s with
      | None => []
      | Some (m, rest) => m :: finditer_from fuel' rest
      end
  end.

Definition finditer (s : str) : list env := finditer_from (S (length s)) s.

(** ** [str.strip] *)

Fixpoint lstrip (s : str) : str :=
  match s with
  | c :: s' => if isspace c then lstrip s' else s
  | [] => []
  end.

Definition rstrip (s : str) : str := rev (lstrip (rev s)).

Definition strip (s : str) : str := rstrip (lstrip s).

(** ** The grouped messages: an insertion-ordered dict *)

(** One stored message, the tuple [(hora, mensagem)]. *)
Definition record : Type := str * str.

(** A dict from date to the list of its records; the order of the list is
    the insertion order of the keys, as in Python's [dict]. *)
Definition dict : Type := list (str * list record).

(** [agrupado[data].append(r)] on a [defaultdict(list)]: a new key goes to
    the end, an existing key keeps its place and its list grows at the end. *)
Fixpoint dict_append (agrupado : dict) (data : str) (r : record) : dict :=
  match agrupado with
  | [] => [(data, [r])]
  | (k, v) :: rest =>
      if str_eqb k data then (k, v ++ [r]) :: rest
      else (k, v) :: dict_append rest data r
  end.

(** The body of the [for] loop of [parse]. *)
Definition parse_step (agrupado : dict) (m : env) : dict :=
  let hora := group m "hora" in
  let data := group m "data" in
  let mensagem := strip (group m "mensagem") in
  dict_append agrupado data (hora, mensagem).

(** The [for] loop of [parse], from a given state of [agrupado]. *)
Definition parse_loop (matches : list env) (agrupado : dict) : dict :=
  fold_left parse_step matches agrupado.

(** ** The parser object *)

Record WhatsAppParser : Type := {
  raw_text : option str;
  messages : dict
}.

(** [parse(self, raw_text)]: the new state of [self] and the returned dict. *)
Definition parse (self : WhatsAppParser) (text : str)
    : WhatsAppParser * dict :=
  let agrupado := parse_loop (finditer text) [] in
  let self' := {| raw_text := raw_text self; messages := agrupado |} in
  (self', messages self').

(** [__init__(self, raw_text=None)] *)
Definition __init__ (text : option str) : WhatsAppParser :=
  let self := {| raw_text := text; messages := [] |} in
  match text with
  | Some t => fst (parse self t)
  | None => self
  end.

(** ** [to_markdown] *)

(** [str.splitlines()] *)
Fixpoint splitlines (s : str) : list str :=
  match s with
  | [] => []
  | c :: s' =>
      if islinebreak c then
        match s' with
        | x :: s'' =>
            if Ascii.eqb c CR && Ascii.eqb x LF then [] :: splitlines s''
            else [] :: splitlines s'
        | [] => [[]]
        end
      else
        match splitlines s' with
        | l :: ls => (c :: l) :: ls
        | [] => [[c]]
        end
  end.

(** [sep.join(lines)] *)
Fixpoint join (sep : str) (lines : list str) : str :=
  match lines with
  | [] => []
  | l :: rest =>
      match rest with
      | [] => l
      | _ :: _ => l ++ sep ++ join sep rest
      end
  end.

(** The lines one message adds to [md_lines]. *)
Definition record_lines (r : record) : list str :=
  let '(hora, mensagem) := r in
  (txt "- **" ++ hora ++ txt "**")
    :: map (fun line => txt "  " ++ line) (splitlines mensagem).

(** The lines one date adds to [md_lines]. *)
Definition date_lines (entry : str * list record) : list str :=
  let '(data, msgs) := entry in
  (txt "## " ++ data) :: flat_map record_lines msgs ++ [[]].

(** [md_lines] at the end of the outer loop. *)
Definition md_lines (msgs : dict) : list str := flat_map date_lines msgs.

(** [to_markdown(self)] *)
Definition to_markdown (self : WhatsAppParser) : str :=
  match messages self with
  | [] => []
  | _ :: _ => join [LF] (md_lines (messages self))
  end.

(** ** The vocabulary of the specification *)

(** A fixed-width lexical shape: one character class per position. *)
Definition shape := list (ascii -> bool).

Definition is_char (c : ascii) : ascii -> bool := fun x => Ascii.eqb x c.

(** [has_shape sh s] is the rest of [s] after a prefix of shape [sh]. *)
Fixpoint has_shape (sh : shape) (s : str) : option str :=
  match sh with
  | [] => Some s
  | p :: sh' =>
      match s with
      | c :: s' => if p c then has_shape sh' s' else None
      | [] => None
      end
  end.

(** [HH:MM] *)
Definition hora_shape : shape :=
  [isdigit; isdigit; is_char ":"; isdigit; isdigit].

(** [DD/MM/YYYY] *)
Definition data_shape : shape :=
  [isdigit; isdigit; is_char "/"; isdigit; isdigit; is_char "/";
   isdigit; isdigit; isdigit; isdigit].

(** The marker [[HH:MM, DD/MM/YYYY]]. *)
Definition marker_shape : shape :=
  is_char "[" :: hora_shape ++ is_char "," :: is_char " "
    :: data_shape ++ [is_char "]"].

Definition exactly (sh : shape) (s : str) : bool :=
  match has_shape sh s with
  | Some [] => true
  | _ => false
  end.

Definition is_hora (h : str) : bool := exactly hora_shape h.
Definition is_data (d : str) : bool := exactly data_shape d.

(** The marker text of a time and a date. *)
Definition marker (hora data : str) : str :=
  "[" :: hora ++ "," :: " " :: data ++ ["]"].

(** A well-formed marker starts at the front of [s]. *)
Definition marker_here (s : str) : bool :=
  match has_shape marker_shape s with
  | Some _ => true
  | None => false
  end.

(** The number of well-formed markers that start inside [span] when [rest]
    follows it. *)
Fixpoint markers_within (span rest : str) : nat :=
  match span with
  | [] => 0%nat
  | c :: span' =>
      ((if marker_here (span ++ rest) then 1 else 0)
       + markers_within span' rest)%nat
  end.

(** The number of well-formed markers of a text. *)
Definition count_markers (s : str) : nat := markers_within s [].

(** [x] occurs in [s]. *)
Definition occurs_in (x s : str) : Prop :=
  exists pre post, s = pre ++ x ++ post.

(** ** The scan of one message, written out

    What the pattern does at one position, without the matcher: the marker,
    the author up to the first colon, the whitespace after it, and the body
    up to the next marker or the end of the text. *)

(** The text after the first colon of [s]. *)
Fixpoint after_colon (s : str) : option str :=
  match s with
  | [] => None
  | c :: s' => if notcolon c then after_colon s' else Some s'
  end.

(** [\s*[^:]+:] : a colon that is not the first character. *)
Definition split_author (s : str) : option str :=
  match s with
  | c :: s' => if notcolon c then after_colon s' else None
  | [] => None
  end.

(** Where the lookahead of the pattern holds. *)
Definition stop_here (s : str) : bool := marker_here s || at_end s.

(** The shortest prefix of [s] that ends where the lookahead holds, and the
    text from there on. *)
Fixpoint body_split (s : str) : str * str :=
  if stop_here s then ([], s)
  else
    match s with
    | c :: s' => let '(b, r) := body_split s' in (c :: b, r)
    | [] => ([], [])
    end.

Definition scan_here (s : str) : option (env * str) :=
  match has_shape marker_shape s with
  | Some s1 =>
      match split_author s1 with
      | Some s3 =>
          let '(b, r) := body_split (lstrip s3) in
          Some ([("mensagem"%string, b);
                 ("data"%string, firstn 10 (skipn 8 s));
                 ("hora"%string, firstn 5 (skipn 1 s))], r)
      | None => None
      end
  | None => None
  end.

(** The dates of the matches of a text, and the records the loop of [parse]
    makes of them, in the order of appearance. *)
Definition dates_of (text : str) : list str :=
  map (fun m => group m "data") (finditer text).

Definition records_of (text : str) : list record :=
  map (fun m => (group m "hora", strip (group m "mensagem"))) (finditer text).

(** The keys of a dict in their order, and the list stored under a key
    (empty when the key is absent). *)
Definition keys (agrupado : dict) : list str := map fst agrupado.

Fixpoint dict_get (agrupado : dict) (data : str) : list record :=
  match agrupado with
  | [] => []
  | (k, v) :: rest => if str_eqb k data then v else dict_get rest data
  end.

(** The dates of a list in the order in which each is first seen. *)
Definition see (seen : list str) (d : str) : list str :=
  if existsb (str_eqb d) seen then seen else seen ++ [d].

Definition first_seen (dates : list str) : list str := fold_left see dates [].

(** No record of the parsed [text] has [span] in its body. *)
Definition never_appended (text span : str) : Prop :=
  forall self d recs h b,
    In (d, recs) (snd (parse self text)) -> In (h, b) recs ->
    ~ occurs_in span b.

(** When [text] holds exactly one well-formed marker, its parse has one
    record, under the date of the marker, with all the text after the
    marker, stripped, as its body. *)
Definition body_is_trailing_text (text : str) : Prop :=
  count_markers text = 1%nat ->
  forall self pre h d rest,
    text = pre ++ marker h d ++ rest ->
    is_hora h = true -> is_data d = true ->
    snd (parse self text) = [(d, [(h, strip rest)])].

(** A line without a newline character. *)
Definition no_lf (l : str) : bool :=
  forallb (fun c => negb (Ascii.eqb c LF)) l.

(** ** Sample transcripts *)

Definition multiline_text : str :=
  txt "[09:00, 01/01/2024] A: line1" ++ LF :: txt "line2"
    ++ LF :: txt "[09:05, 01/01/2024] B: next".

Definition empty_body_text : str := txt "[10:00, 02/02/2024] A: ".

Definition malformed_span : str := txt "[1:00, 02/02/2024]".

Definition malformed_text : str :=
  txt "[10:00, 02/02/2024] A: hi " ++ malformed_span ++ txt " B: yo".

Definition no_marker_text : str :=
  txt "no stamp here [1:00, 02/02/2024] A: x".

Definition no_author_text : str := txt "[10:00, 02/02/2024] hello".

Definition one_message_text : str := txt "[10:00, 02/02/2024] A: hello".

Definition three_dates_text : str :=
  txt "[10:00, 02/01/2024] A: x" ++ LF :: txt "[11:00, 01/01/2024] B: y"
    ++ LF :: txt "[12:00, 02/01/2024] C: z".

(** A parser that has parsed [three_dates_text]. *)
Definition three_dates_parser : WhatsAppParser :=
  fst (parse (__init__ None) three_dates_text).

(** ** Fixed-width patterns

    The patterns built from literals, classes, concatenation and groups
    only: their shape, their width and the groups they bind. *)

Fixpoint shape_of (r : regex) : option shape :=
  match r with
  | Lit c => Some [is_char c]
  | Class p => Some [p]
  | Cat r1 r2 =>
      match shape_of r1, shape_of r2 with
      | Some sh1, Some sh2 => Some (sh1 ++ sh2)
      | _, _ => None
      end
  | Group _ r1 => shape_of r1
  | _ => None
  end.

Fixpoint width (r : regex) : nat :=
  match r with
  | Lit _ | Class _ => 1
  | Cat r1 r2 => width r1 + width r2
  | Group _ r1 => width r1
  | _ => 0
  end%nat.

Fixpoint captures (r : regex) (s : str) (e : env) : env :=
  match r with
  | Cat r1 r2 => captures r2 (skipn (width r1) s) (captures r1 s e)
  | Group name r1 => (name, firstn (width r1) s) :: captures r1 s e
  | _ => e
  end.

(** ** Counting the lines of a rendered text *)

(** [text.split("\n")] *)
Fixpoint split_lf (s : str) : list str :=
  match s with
  | [] => [[]]
  | c :: s' =>
      if Ascii.eqb c LF then [] :: split_lf s'
      else
        match split_lf s' with
        | l :: ls => (c :: l) :: ls
        | [] => [[c]]
        end
  end.

Fixpoint starts_with (p s : str) : bool :=
  match p with
  | [] => true
  | c :: p' =>
      match s with
      | x :: s' => Ascii.eqb x c && starts_with p' s'
      | [] => false
      end
  end.

(** The lines of [text] that begin with [p]. *)
Definition count_lines (p : str) (text : str) : nat :=
  List.length (filter (starts_with p) (split_lf text)).

(** Date headers are the lines [## date], time markers the lines
    [- **time**]. *)
Definition count_date_headers (text : str) : nat :=
  count_lines (txt "## ") text.

Definition count_time_markers (text : str) : nat :=
  count_lines (txt "- **") text.

Definition total_records (msgs : dict) : nat :=
  list_sum (map (fun entry => List.length (snd entry)) msgs).

(** A ParsedTranscript as the data model has it: dates [DD/MM/YYYY], times
    [HH:MM]. *)
Definition well_formed (msgs : dict) : bool :=
  forallb (fun entry =>
             is_data (fst entry)
             && forallb (fun r : record => is_hora (fst r)) (snd entry))
          msgs.

(** ** [pretty_print] *)

(** [print(x)] on the text written to the console so far. *)
Definition print (stdout : str) (x : str) : str := stdout ++ x ++ [LF].

(** The two [print] calls for one message: [[hora]], then the body followed
    by the newline of the f-string and the newline of [print]. *)
Definition print_record (stdout : str) (r : record) : str :=
  let '(hora, mensagem) := r in
  print (print stdout ("[" :: hora ++ ["]"])) (mensagem ++ [LF]).

(** One turn of the outer loop: the date line, then its messages. *)
Definition print_date (stdout : str) (entry : str * list record) : str :=
  let '(data, msgs) := entry in
  fold_left print_record msgs (print stdout (txt "=== " ++ data ++ txt " ===")).

(** [pretty_print(self)]: the console text after the call. *)
Definition pretty_print (self : WhatsAppParser) (stdout : str) : str :=
  match messages self with
  | [] => print stdout (txt "Nenhuma mensagem para exibir.")
  | _ :: _ => fold_left print_date (messages self) stdout
  end.

(** ** More vocabulary *)

(** What the loop of [parse] takes from a match: the date, and the record
    appended under it. *)
Definition entry_of (m : env) : str * record :=
  (group m "data", (group m "hora", strip (group m "mensagem"))).


(** The number of colons of a text. *)
Definition colons (s : str) : nat := count_occ ascii_dec s ":".

(** The matches lie in the text one after the other: each is a marker, the
    author, and the captured body, found in what the one before left. *)
Fixpoint in_order (ms : list env) (text : str) : Prop :=
  match ms with
  | [] => True
  | m :: ms' =>
      exists pre gap rest,
        text = pre ++ marker (group m "hora") (group m "data")
                 ++ gap ++ group m "mensagem" ++ rest
        /\ in_order ms' rest
  end.

(** The dates of the well-formed markers of a text, in the order of the
    text. *)
Fixpoint marker_dates (s : str) : list str :=
  match s with
  | [] => []
  | _ :: s' =>
      (if marker_here s then [firstn 10 (skipn 8 s)] else [])
        ++ marker_dates s'
  end.

(** When the well-formed markers of [text] carry the dates D1, D2, D1, the
    keys of its parse are D1 then D2 and two records are stored under D1. *)
Definition dates_in_marker_order (text : str) : Prop :=
  forall self D1 D2,
    D1 <> D2 -> marker_dates text = [D1; D2; D1] ->
    keys (snd (parse self text)) = [D1; D2]
    /\ length (dict_get (snd (parse self text)) D1) = 2%nat.

(** Three markers, the second of them inside the author of the first. *)
Definition swallowed_marker_text : str :=
  txt "[10:00, 01/01/2024] [11:00, 02/01/2024] A: x [12:00, 01/01/2024] B: y".

(** * Properties *)

(** ** Characters *)

Ltac by_cases_on_char c :=
  destruct c as [[] [] [] [] [] [] [] []]; vm_compute; congruence.

Lemma isspace_notcolon (c : ascii) : isspace c = true -> notcolon c = true.
Proof. by_cases_on_char c. Qed.

Lemma LF_isspace : isspace LF = true.
Proof. reflexivity. Qed.

Lemma str_eqb_refl (a : str) : str_eqb a a = true.
Proof. unfold str_eqb. destruct (list_eq_dec ascii_dec a a); congruence. Qed.

Lemma str_eqb_neq (a b : str) : a <> b -> str_eqb a b = false.
Proof. unfold str_eqb. destruct (list_eq_dec ascii_dec a b); congruence. Qed.

(** ** The matcher on fixed-width patterns *)

Lemma consumed_app (x r : str) : consumed (x ++ r) r = x.
Proof.
  unfold consumed. rewrite length_app.
  replace (length x + length r - length r) with (length x) by lia.
  rewrite firstn_app, Nat.sub_diag, firstn_all. simpl. apply app_nil_r.
Qed.

Lemma has_shape_app (sh1 sh2 : shape) (s : str) :
  has_shape (sh1 ++ sh2) s =
  match has_shape sh1 s with
  | Some r => has_shape sh2 r
  | None => None
  end.
Proof.
  revert s. induction sh1 as [|p sh1 IH]; intros s; simpl; [reflexivity|].
  destruct s as [|c s]; [reflexivity|]. destruct (p c); auto.
Qed.

Lemma has_shape_split (sh : shape) (s r : str) :
  has_shape sh s = Some r ->
  s = firstn (length sh) s ++ r /\ skipn (length sh) s = r.
Proof.
  revert s. induction sh as [|p sh IH]; intros s; simpl.
  - intros [= ->]. auto.
  - destruct s as [|c s]; [discriminate|]. destruct (p c); [|discriminate].
    intros H. destruct (IH _ H) as [H1 H2]. split; [|exact H2].
    simpl. now rewrite <- H1.
Qed.

Lemma has_shape_length (sh : shape) (s r : str) :
  has_shape sh s = Some r -> length s = (length sh + length r)%nat.
Proof.
  revert s. induction sh as [|p sh IH]; intros s; simpl.
  - now intros [= ->].
  - destruct s as [|c s]; [discriminate|]. destruct (p c); [|discriminate].
    intros H. simpl. now rewrite (IH _ H).
Qed.

Lemma shape_of_width (r : regex) (sh : shape) :
  shape_of r = Some sh -> length sh = width r.
Proof.
  revert sh. induction r; intros sh; simpl; try discriminate.
  - now intros [= <-].
  - now intros [= <-].
  - destruct (shape_of r1) as [sh1|]; [|discriminate].
    destruct (shape_of r2) as [sh2|]; [|discriminate].
    intros [= <-]. rewrite length_app.
    now rewrite (IHr1 _ eq_refl), (IHr2 _ eq_refl).
  - auto.
Qed.

(** A fixed-width pattern matches exactly the prefixes of its shape, never
    backtracks, and binds its groups to the slices of the text they span. *)
Lemma rmatch_flat (r : regex) (sh : shape) :
  shape_of r = Some sh ->
  forall (A : Type) (s : str) (e : env) (k : str -> env -> option A),
    rmatch r s e k =
    match has_shape sh s with
    | Some rest => k rest (captures r s e)
    | None => None
    end.
Proof.
  revert sh. induction r; intros sh Hsh A s e k; simpl in Hsh; try discriminate.
  - injection Hsh as <-. simpl. destruct s as [|x s]; [reflexivity|].
    unfold is_char. destruct (Ascii.eqb x c); reflexivity.
  - injection Hsh as <-. simpl. destruct s as [|x s]; [reflexivity|].
    destruct (p x); reflexivity.
  - destruct (shape_of r1) as [sh1|] eqn:E1; [|discriminate].
    destruct (shape_of r2) as [sh2|] eqn:E2; [|discriminate].
    injection Hsh as <-. simpl.
    rewrite (IHr1 _ eq_refl), has_shape_app.
    destruct (has_shape sh1 s) as [s1|] eqn:H1; [|reflexivity].
    rewrite (IHr2 _ eq_refl).
    destruct (has_shape_split _ _ _ H1) as [_ Hskip].
    rewrite <- (shape_of_width _ _ E1), Hskip. reflexivity.
  - simpl. rewrite (IHr _ Hsh).
    destruct (has_shape sh s) as [rest|] eqn:H1; [|reflexivity].
    destruct (has_shape_split _ _ _ H1) as [Hs _].
    rewrite <- (shape_of_width _ _ Hsh).
    replace (consumed s rest) with (firstn (length sh) s); [reflexivity|].
    rewrite Hs at 2. now rewrite consumed_app.
Qed.

Lemma shape_of_stamp : shape_of stamp_re = Some marker_shape.
Proof. reflexivity. Qed.

Lemma shape_of_marker : shape_of marker_re = Some marker_shape.
Proof. reflexivity. Qed.

(** The marker with its two groups. *)
Lemma rmatch_stamp (A : Type) (s : str) (e : env) (k : str -> env -> option A) :
  rmatch stamp_re s e k =
  match has_shape marker_shape s with
  | Some rest =>
      k rest (("data"%string, firstn 10 (skipn 8 s))
                :: ("hora"%string, firstn 5 (skipn 1 s)) :: e)
  | None => None
  end.
Proof.
  rewrite (rmatch_flat _ _ shape_of_stamp).
  destruct (has_shape marker_shape s); [|reflexivity].
  f_equal. unfold stamp_re, hora_re, data_re, digits4, digits2.
  cbn [captures width Nat.add]. now rewrite !skipn_skipn.
Qed.

(** The lookahead holds where a marker starts or the text ends. *)
Lemma rmatch_terminator (A : Type) (s : str) (e : env)
    (k : str -> env -> option A) :
  rmatch terminator_re s e k = if stop_here s then k s e else None.
Proof.
  unfold terminator_re, stop_here, marker_here.
  cbn [rmatch]. rewrite (rmatch_flat _ _ shape_of_marker).
  destruct (has_shape marker_shape s); cbn [orb]; [reflexivity|].
  destruct (at_end s); reflexivity.
Qed.

(** ** The matcher on the repetitions of the pattern *)

Lemma star_greedy_ext (A : Type) (p : ascii -> bool) (s : str)
    (k1 k2 : str -> option A) :
  (forall x, k1 x = k2 x) -> star_greedy p s k1 = star_greedy p s k2.
Proof.
  intros H. induction s as [|c s IH]; simpl; [apply H|].
  rewrite IH, H. reflexivity.
Qed.

Lemma star_lazy_ext (A : Type) (p : ascii -> bool) (s : str)
    (k1 k2 : str -> option A) :
  (forall x, k1 x = k2 x) -> star_lazy p s k1 = star_lazy p s k2.
Proof.
  intros H. induction s as [|c s IH]; simpl; rewrite H; [reflexivity|].
  now rewrite IH.
Qed.

(** When the rest of the pattern cannot fail, [\s*] keeps all the
    whitespace it took. *)
Lemma star_greedy_isspace (A : Type) (s : str) (k : str -> option A) :
  (forall x, k x <> None) -> star_greedy isspace s k = k (lstrip s).
Proof.
  intros Hk. induction s as [|c s IH]; simpl; [reflexivity|].
  destruct (isspace c); [|reflexivity].
  rewrite IH. destruct (k (lstrip s)) eqn:E; [reflexivity|].
  now destruct (Hk (lstrip s)).
Qed.

(** [[^:]*:] runs to the first colon: giving characters back never helps,
    a character given back is not a colon. *)
Lemma star_notcolon_colon (A : Type) (s : str) (k : str -> option A) :
  star_greedy notcolon s
    (fun s2 => match s2 with
               | y :: s3 => if Ascii.eqb y ":" then k s3 else None
               | [] => None
               end) =
  match after_colon s with
  | Some s3 => k s3
  | None => None
  end.
Proof.
  induction s as [|c s IH]; simpl; [reflexivity|].
  destruct (notcolon c) eqn:E.
  - rewrite IH. unfold notcolon in E.
    destruct (Ascii.eqb c ":"); [discriminate|].
    destruct (after_colon s) as [s3|]; [|reflexivity]. now destruct (k s3).
  - unfold notcolon in E. now destruct (Ascii.eqb c ":").
Qed.

Lemma rmatch_author (A : Type) (s : str) (e : env)
    (k : str -> env -> option A) :
  rmatch author_re s e k =
  match split_author s with
  | Some s3 => star_greedy isspace s3 (fun s4 => k s4 e)
  | None => None
  end.
Proof.
  unfold author_re, split_author. cbn [rmatch].
  destruct s as [|c s]; [reflexivity|].
  destruct (notcolon c); [|reflexivity].
  apply star_notcolon_colon.
Qed.

(** The whitespace between the marker and the author: whatever [\s*] takes
    or gives back, [[^:]+] reaches the same colon. *)
Lemma star_isspace_author (A : Type) (s : str) (h : str -> option A) :
  let g := fun s2 => match split_author s2 with
                     | Some s3 => h s3
                     | None => None
                     end in
  star_greedy isspace s g = g s.
Proof.
  intros g. induction s as [|c s IH]; simpl; [reflexivity|].
  destruct (isspace c) eqn:E; [|reflexivity].
  rewrite IH.
  assert (H : g s = None \/ g s = g (c :: s)).
  { unfold g, split_author. rewrite (isspace_notcolon _ E).
    destruct s as [|c' s']; [now left|]. simpl.
    destruct (notcolon c'); [now right|now left]. }
  destruct H as [-> | ->]; [reflexivity|]. now destruct (g (c :: s)).
Qed.

(** The body: the lazy [.*?] stops at the first place where the lookahead
    holds, which exists because the lookahead holds at the end of the text. *)
Lemma star_lazy_body (A : Type) (g : str -> str -> A) (pre s : str) :
  star_lazy anychar s
    (fun s' => if stop_here s' then Some (g (consumed (pre ++ s) s') s')
               else None) =
  Some (g (pre ++ fst (body_split s)) (snd (body_split s))).
Proof.
  revert pre. induction s as [|c s IH]; intros pre.
  - simpl. now rewrite consumed_app, app_nil_r.
  - cbn [star_lazy body_split]. destruct (stop_here (c :: s)) eqn:E.
    + simpl. rewrite consumed_app, app_nil_r. reflexivity.
    + cbn [anychar].
      rewrite (star_lazy_ext _ _ _ _
        (fun s' => if stop_here s'
                   then Some (g (consumed ((pre ++ [c]) ++ s) s') s')
                   else None)).
      * rewrite IH. destruct (body_split s) as [b r]. simpl.
        now rewrite <- app_assoc.
      * intros x. now rewrite <- app_assoc.
Qed.

Lemma rmatch_mensagem (s : str) (e : env) :
  rmatch mensagem_re s e (fun s' e' => Some (e', s')) =
  Some (("mensagem"%string, fst (body_split s)) :: e, snd (body_split s)).
Proof.
  unfold mensagem_re. cbn [rmatch].
  rewrite (star_lazy_ext _ _ _ _
    (fun s' => if stop_here s'
               then Some (("mensagem"%string, consumed ([] ++ s) s') :: e, s')
               else None)).
  - now rewrite (star_lazy_body _
      (fun b r => (("mensagem"%string, b) :: e, r)) [] s).
  - intros x. now rewrite rmatch_terminator.
Qed.

(** ** The pattern at one position *)

(** The matcher on [TIMESTAMP_PATTERN] does what the written-out scan
    does. *)
Lemma match_here_scan (s : str) : match_here s = scan_here s.
Proof.
  unfold match_here, scan_here, TIMESTAMP_PATTERN.
  cbn [rmatch]. rewrite rmatch_stamp.
  destruct (has_shape marker_shape s) as [s1|]; [|reflexivity].
  set (e := [("data"%string, firstn 10 (skipn 8 s));
             ("hora"%string, firstn 5 (skipn 1 s))]).
  set (h := fun s3 : str =>
              Some (("mensagem"%string, fst (body_split (lstrip s3))) :: e,
                    snd (body_split (lstrip s3)))).
  rewrite (star_greedy_ext _ _ _ _
    (fun s2 => match split_author s2 with
               | Some s3 => h s3
               | None => None
               end)).
  - rewrite star_isspace_author.
    destruct (split_author s1) as [s3|]; [|reflexivity].
    unfold h. now destruct (body_split (lstrip s3)).
  - intros x. rewrite rmatch_author.
    destruct (split_author x) as [s3|]; [|reflexivity].
    rewrite (star_greedy_ext _ _ _ _
      (fun s4 => Some (("mensagem"%string, fst (body_split s4)) :: e,
                       snd (body_split s4)))).
    + now rewrite star_greedy_isspace.
    + intros y. apply rmatch_mensagem.
Qed.

Lemma body_split_eq (s : str) :
  body_split s =
  if stop_here s then ([], s)
  else match s with
       | c :: s' => let '(b, r) := body_split s' in (c :: b, r)
       | [] => ([], [])
       end.
Proof. destruct s; reflexivity. Qed.

Lemma body_split_app (s : str) :
  s = fst (body_split s) ++ snd (body_split s).
Proof.
  induction s as [|c s IH]; rewrite body_split_eq.
  - now destruct (stop_here []).
  - destruct (stop_here (c :: s)); [reflexivity|].
    destruct (body_split s) as [b r]. simpl in *. now rewrite <- IH.
Qed.

Lemma lstrip_length (s : str) : length (lstrip s) <= length s.
Proof.
  induction s as [|c s IH]; simpl; [lia|].
  destruct (isspace c); simpl; lia.
Qed.

Lemma after_colon_length (s r : str) :
  after_colon s = Some r -> length r < length s.
Proof.
  revert r. induction s as [|c s IH]; intros r; simpl; [discriminate|].
  destruct (notcolon c).
  - intros H. specialize (IH _ H). lia.
  - intros [= <-]. lia.
Qed.

(** Every match binds the three groups. *)
Lemma match_here_groups (s : str) (m : env) (r : str) :
  match_here s = Some (m, r) ->
  exists h d b,
    m = [("mensagem"%string, b); ("data"%string, d); ("hora"%string, h)].
Proof.
  rewrite match_here_scan. unfold scan_here.
  destruct (has_shape marker_shape s); [|discriminate].
  destruct (split_author s0); [|discriminate].
  destruct (body_split (lstrip s1)). intros [= <- <-]. eauto.
Qed.

(** A match is never empty: it holds a marker at least. *)
Lemma match_here_shorter (s : str) (m : env) (r : str) :
  match_here s = Some (m, r) -> length r < length s.
Proof.
  rewrite match_here_scan. unfold scan_here.
  destruct (has_shape marker_shape s) as [s1|] eqn:H1; [|discriminate].
  destruct (split_author s1) as [s3|] eqn:H2; [|discriminate].
  pose proof (body_split_app (lstrip s3)) as H3.
  destruct (body_split (lstrip s3)) as [b r']. intros [= <- <-].
  apply has_shape_length in H1. simpl in H1, H3.
  assert (length s3 < length s1).
  { unfold split_author in H2. destruct s1 as [|c s1]; [discriminate|].
    destruct (notcolon c); [|discriminate].
    apply after_colon_length in H2. simpl. lia. }
  pose proof (lstrip_length s3) as H4. rewrite H3, length_app in H4. lia.
Qed.

(** ** The scan over the whole text *)

Lemma search_shorter (s : str) (m : env) (r : str) :
  search s = Some (m, r) -> length r < length s.
Proof.
  induction s as [|c s IH]; cbn [search].
  - destruct (match_here []) as [[m' r']|] eqn:E; [|discriminate].
    intros [= <- <-]. now apply match_here_shorter in E.
  - destruct (match_here (c :: s)) as [[m' r']|] eqn:E.
    + intros [= <- <-]. now apply match_here_shorter in E.
    + intros H. specialize (IH H). simpl. lia.
Qed.

Lemma finditer_from_enough (n1 n2 : nat) (s : str) :
  length s < n1 -> length s < n2 ->
  finditer_from n1 s = finditer_from n2 s.
Proof.
  revert n2 s. induction n1 as [|n1 IH]; intros n2 s H1 H2; [lia|].
  destruct n2 as [|n2]; [lia|]. simpl.
  destruct (search s) as [[m r]|] eqn:E; [|reflexivity].
  apply search_shorter in E. f_equal. apply IH; lia.
Qed.

(** [finditer] never runs out of fuel: it is the search for the next match,
    repeated from the end of each match. *)
Lemma finditer_unfold (s : str) :
  finditer s =
  match search s with
  | None => []
  | Some (m, rest) => m :: finditer rest
  end.
Proof.
  unfold finditer at 1. cbn [finditer_from].
  destruct (search s) as [[m r]|] eqn:E; [|reflexivity].
  apply search_shorter in E. f_equal. apply finditer_from_enough; lia.
Qed.

Lemma match_here_no_marker (s : str) :
  marker_here s = false -> match_here s = None.
Proof.
  rewrite match_here_scan. unfold marker_here, scan_here.
  now destruct (has_shape marker_shape s).
Qed.

Lemma markers_within_zero_cons (c : ascii) (span rest : str) :
  markers_within (c :: span) rest = 0%nat ->
  marker_here (c :: span ++ rest) = false /\ markers_within span rest = 0%nat.
Proof.
  simpl. destruct (marker_here (c :: span ++ rest)); [discriminate|]. auto.
Qed.

(** The search passes over a span in which no marker starts. *)
Lemma search_skip (pre s : str) :
  markers_within pre s = 0%nat -> search (pre ++ s) = search s.
Proof.
  induction pre as [|c pre IH]; [reflexivity|]. intros H.
  apply markers_within_zero_cons in H. destruct H as [H1 H2].
  cbn [app search]. rewrite (match_here_no_marker _ H1). auto.
Qed.

Lemma search_no_marker (s : str) : count_markers s = 0%nat -> search s = None.
Proof.
  intros H. rewrite <- (app_nil_r s). rewrite (search_skip _ _ H).
  reflexivity.
Qed.

Lemma markers_within_app (x y rest : str) :
  markers_within (x ++ y) rest =
  (markers_within x (y ++ rest) + markers_within y rest)%nat.
Proof.
  induction x as [|c x IH]; [reflexivity|]. simpl.
  rewrite IH, <- app_assoc. lia.
Qed.

(** ** Markers *)

Lemma exactly_app (sh : shape) (x y : str) :
  exactly sh x = true -> has_shape sh (x ++ y) = Some y.
Proof.
  unfold exactly. revert x. induction sh as [|p sh IH]; intros x; simpl.
  - destruct x; [reflexivity|discriminate].
  - destruct x as [|c x]; [discriminate|]. simpl.
    destruct (p c); [apply IH|discriminate].
Qed.

Lemma exactly_length (sh : shape) (x : str) :
  exactly sh x = true -> length x = length sh.
Proof.
  unfold exactly. intros H.
  destruct (has_shape sh x) as [r|] eqn:E; [|discriminate].
  destruct r; [|discriminate]. apply has_shape_length in E. simpl in E. lia.
Qed.

Lemma is_char_refl (c : ascii) : is_char c c = true.
Proof. apply Ascii.eqb_refl. Qed.

Lemma has_shape_marker (h d rest : str) :
  is_hora h = true -> is_data d = true ->
  has_shape marker_shape (marker h d ++ rest) = Some rest.
Proof.
  intros Hh Hd. unfold marker_shape, marker.
  cbn [has_shape app]. rewrite is_char_refl.
  rewrite <- app_assoc, has_shape_app, (exactly_app _ _ _ Hh).
  cbn [has_shape app]. rewrite !is_char_refl.
  rewrite <- app_assoc, has_shape_app, (exactly_app _ _ _ Hd).
  cbn [has_shape app]. now rewrite is_char_refl.
Qed.

Lemma marker_here_marker (h d rest : str) :
  is_hora h = true -> is_data d = true ->
  marker_here (marker h d ++ rest) = true.
Proof.
  intros Hh Hd. unfold marker_here. now rewrite has_shape_marker.
Qed.

Lemma marker_hora (h d rest : str) :
  is_hora h = true -> firstn 5 (skipn 1 (marker h d ++ rest)) = h.
Proof.
  intros Hh. apply exactly_length in Hh. unfold marker. cbn [skipn app].
  rewrite <- app_assoc.
  change 5%nat with (length hora_shape). rewrite <- Hh.
  rewrite firstn_app, Nat.sub_diag, firstn_all. simpl. apply app_nil_r.
Qed.

Lemma marker_data (h d rest : str) :
  is_hora h = true -> is_data d = true ->
  firstn 10 (skipn 8 (marker h d ++ rest)) = d.
Proof.
  intros Hh Hd. apply exactly_length in Hh, Hd. unfold marker.
  destruct h as [|h1 [|h2 [|h3 [|h4 [|h5 [|h6 h]]]]]]; try discriminate.
  cbn [skipn app]. rewrite <- app_assoc.
  change 10%nat with (length data_shape). rewrite <- Hd.
  rewrite firstn_app, Nat.sub_diag, firstn_all. simpl. apply app_nil_r.
Qed.

(** A text on which the marker shape holds starts with the marker of its
    time and date slices. *)
Lemma has_shape_marker_inv (s rest : str) :
  has_shape marker_shape s = Some rest ->
  let h := firstn 5 (skipn 1 s) in
  let d := firstn 10 (skipn 8 s) in
  s = marker h d ++ rest /\ is_hora h = true /\ is_data d = true.
Proof.
  intros H.
  do 19 (destruct s as [|? s];
         [cbn in H;
          repeat match type of H with
                 | (if ?b then _ else _) = _ => destruct b
                 end; discriminate H|]).
  cbn [has_shape marker_shape hora_shape data_shape app] in H.
  repeat match type of H with
         | (if ?b then _ else _) = _ => destruct b eqn:?; [|discriminate]
         end.
  injection H as <-.
  repeat match goal with
         | E : is_char _ _ = true |- _ =>
             unfold is_char in E; apply Ascii.eqb_eq in E; subst
         end.
  cbn. unfold is_hora, is_data, exactly. cbn.
  repeat match goal with
         | E : isdigit _ = true |- _ => rewrite E; clear E
         end.
  auto.
Qed.

Lemma marker_here_nonempty (s : str) :
  marker_here s = true -> exists rest, s = "[" :: rest.
Proof.
  unfold marker_here.
  destruct (has_shape marker_shape s) as [r|] eqn:E; [|discriminate].
  intros _. destruct (has_shape_marker_inv _ _ E) as [-> _].
  unfold marker. simpl. eauto.
Qed.

Lemma marker_here_lstrip (s : str) : marker_here s = true -> lstrip s = s.
Proof.
  intros H. destruct (marker_here_nonempty _ H) as [r ->]. reflexivity.
Qed.

Lemma marker_here_long (s : str) : marker_here s = true -> 19 <= length s.
Proof.
  unfold marker_here.
  destruct (has_shape marker_shape s) as [r|] eqn:E; [|discriminate].
  intros _. apply has_shape_length in E. simpl in E. lia.
Qed.

(** ** [strip] *)

Lemma lstrip_idem (s : str) : lstrip (lstrip s) = lstrip s.
Proof.
  induction s as [|c s IH]; [reflexivity|]. simpl.
  destruct (isspace c) eqn:E; [exact IH|]. simpl. now rewrite E.
Qed.

Lemma strip_lstrip (s : str) : strip (lstrip s) = strip s.
Proof. unfold strip. now rewrite lstrip_idem. Qed.

Lemma lstrip_snoc (s : str) (c : ascii) :
  isspace c = true ->
  lstrip (s ++ [c]) = match lstrip s with
                      | [] => []
                      | _ :: _ => lstrip s ++ [c]
                      end.
Proof.
  intros Hc. induction s as [|x s IH]; simpl.
  - now rewrite Hc.
  - destruct (isspace x); [exact IH|reflexivity].
Qed.

(** Trailing whitespace does not change the stripped text. *)
Lemma strip_snoc (s : str) (c : ascii) :
  isspace c = true -> strip (s ++ [c]) = strip s.
Proof.
  intros Hc. unfold strip, rstrip. rewrite (lstrip_snoc _ _ Hc).
  destruct (lstrip s) as [|x l]; [reflexivity|].
  rewrite rev_app_distr. simpl. now rewrite Hc.
Qed.

Lemma lstrip_app_marker (mid s2 : str) :
  marker_here s2 = true -> lstrip (mid ++ s2) = lstrip mid ++ s2.
Proof.
  intros H. induction mid as [|c mid IH]; simpl.
  - now apply marker_here_lstrip.
  - destruct (isspace c); [exact IH|reflexivity].
Qed.

Lemma markers_within_lstrip (mid rest : str) :
  markers_within mid rest = 0%nat -> markers_within (lstrip mid) rest = 0%nat.
Proof.
  induction mid as [|c mid IH]; [reflexivity|]. intros H.
  cbn [lstrip]. destruct (isspace c); [|exact H].
  apply markers_within_zero_cons in H. now apply IH.
Qed.

(** ** The body of a message *)

(** Before a marker the body is all the text in which no marker starts. *)
Lemma body_split_marker (mid s2 : str) :
  markers_within mid s2 = 0%nat -> marker_here s2 = true ->
  body_split (mid ++ s2) = (mid, s2).
Proof.
  intros H Hm. induction mid as [|c mid IH].
  - simpl. rewrite body_split_eq. unfold stop_here. now rewrite Hm.
  - apply markers_within_zero_cons in H. destruct H as [H1 H2].
    rewrite body_split_eq. unfold stop_here.
    cbn [app]. rewrite H1.
    assert (Hend : at_end (c :: mid ++ s2) = false).
    { apply marker_here_long in Hm.
      destruct (mid ++ s2) eqn:E; [|reflexivity].
      apply (f_equal (@length ascii)) in E. rewrite length_app in E.
      simpl in E. lia. }
    rewrite Hend. cbn [orb]. now rewrite (IH H2).
Qed.

(** At the end of the text the body is all the text in which no marker
    starts, but for a last newline. *)
Lemma body_split_end (mid : str) :
  markers_within mid [] = 0%nat ->
  exists b r, body_split mid = (b, r) /\ mid = b ++ r /\ (r = [] \/ r = [LF]).
Proof.
  induction mid as [|c mid IH]; intros H.
  - exists [], []. auto.
  - apply markers_within_zero_cons in H. destruct H as [H1 H2].
    rewrite app_nil_r in H1.
    rewrite body_split_eq. unfold stop_here. rewrite H1. cbn [orb].
    destruct (at_end (c :: mid)) eqn:E.
    + exists [], (c :: mid). split; [reflexivity|]. split; [reflexivity|].
      right. simpl in E. destruct mid; [|discriminate].
      apply Ascii.eqb_eq in E. now subst.
    + destruct (IH H2) as (b & r & Hb & Hmid & Hr). rewrite Hb.
      exists (c :: b), r. rewrite Hmid. auto.
Qed.

(** ** One message of the text *)

Lemma search_eq (s : str) :
  search s =
  match match_here s with
  | Some m => Some m
  | None => match s with
            | [] => None
            | _ :: s' => search s'
            end
  end.
Proof. destruct s; reflexivity. Qed.

Lemma after_colon_app (a rest : str) :
  forallb notcolon a = true -> after_colon (a ++ ":" :: rest) = Some rest.
Proof.
  induction a as [|c a IH]; simpl; [reflexivity|].
  destruct (notcolon c); [exact IH|discriminate].
Qed.

Lemma split_author_app (a rest : str) :
  a <> [] -> forallb notcolon a = true ->
  split_author (a ++ ":" :: rest) = Some rest.
Proof.
  destruct a as [|c a]; [congruence|]. intros _. simpl.
  destruct (notcolon c); [apply after_colon_app|discriminate].
Qed.

(** The match at a message [[h, d]author:body]: its groups, and where the
    scan resumes. *)
Lemma match_here_message (h d a rest : str) :
  is_hora h = true -> is_data d = true ->
  a <> [] -> forallb notcolon a = true ->
  match_here (marker h d ++ a ++ ":" :: rest) =
  Some ([("mensagem"%string, fst (body_split (lstrip rest)));
         ("data"%string, d); ("hora"%string, h)],
        snd (body_split (lstrip rest))).
Proof.
  intros Hh Hd Ha Hc. rewrite match_here_scan. unfold scan_here.
  rewrite (has_shape_marker _ _ _ Hh Hd), (split_author_app _ _ Ha Hc).
  rewrite (marker_hora _ _ _ Hh), (marker_data _ _ _ Hh Hd).
  now destruct (body_split (lstrip rest)).
Qed.

Lemma finditer_end (r : str) : r = [] \/ r = [LF] -> finditer r = [].
Proof. intros [-> | ->]; reflexivity. Qed.

(** A message preceded by text in which no marker starts, and followed by
    the next marker or by the end of the text: the first match is this
    message, its body is the text up to the next marker, and the scan goes on
    from that marker. *)
Lemma finditer_message (pre h d a mid s2 : str) :
  is_hora h = true -> is_data d = true ->
  a <> [] -> forallb notcolon a = true ->
  markers_within pre (marker h d ++ a ++ ":" :: mid ++ s2) = 0%nat ->
  markers_within mid s2 = 0%nat ->
  s2 = [] \/ marker_here s2 = true ->
  exists b,
    finditer (pre ++ marker h d ++ a ++ ":" :: mid ++ s2) =
    [("mensagem"%string, b); ("data"%string, d); ("hora"%string, h)]
      :: finditer s2
    /\ strip b = strip mid.
Proof.
  intros Hh Hd Ha Hc Hpre Hmid Hs2.
  rewrite finditer_unfold, (search_skip _ _ Hpre), search_eq.
  rewrite (match_here_message _ _ _ _ Hh Hd Ha Hc).
  destruct Hs2 as [-> | Hm].
  - rewrite app_nil_r.
    destruct (body_split_end _ (markers_within_lstrip _ _ Hmid))
      as (b & r & Hb & Hsplit & Hr).
    rewrite Hb. cbn [fst snd]. exists b. split.
    + now rewrite (finditer_end _ Hr).
    + rewrite <- (strip_lstrip mid), Hsplit.
      destruct Hr as [-> | ->]; [now rewrite app_nil_r|].
      now rewrite (strip_snoc _ _ LF_isspace).
  - rewrite (lstrip_app_marker _ _ Hm).
    rewrite (body_split_marker _ _ (markers_within_lstrip _ _ Hmid) Hm).
    cbn [fst snd]. exists (lstrip mid). split; [reflexivity|].
    apply strip_lstrip.
Qed.

(** ** The grouping loop *)

Lemma parse_loop_cons (m : env) (ms : list env) (agrupado : dict) :
  parse_loop (m :: ms) agrupado = parse_loop ms (parse_step agrupado m).
Proof. reflexivity. Qed.

Lemma dict_append_in (agrupado : dict) (data : str) (r : record)
    (k : str) (v : list record) (x : record) :
  In (k, v) (dict_append agrupado data r) -> In x v ->
  (exists v', In (k, v') agrupado /\ In x v') \/ (k = data /\ x = r).
Proof.
  induction agrupado as [|[k0 v0] rest IH]; simpl.
  - intros [[= <- <-]|[]] [<-|[]]. now right.
  - destruct (str_eqb k0 data) eqn:E.
    + intros [[= <- <-]|Hin] Hx.
      * apply in_app_or in Hx. destruct Hx as [Hx|[<-|[]]].
        -- left. exists v0. auto.
        -- right. split; [|reflexivity]. unfold str_eqb in E.
           now destruct (list_eq_dec ascii_dec k0 data).
      * left. exists v. auto.
    + intros [[= <- <-]|Hin] Hx.
      * left. exists v0. auto.
      * destruct (IH Hin Hx) as [(v' & H1 & H2)|H]; [|now right].
        left. exists v'. auto.
Qed.

(** Every record of the result was put there by one of the matches, under
    the date of that match, unless it was in the dict from the start. *)
Lemma parse_loop_in (ms : list env) (agrupado : dict)
    (k : str) (v : list record) (x : record) :
  In (k, v) (parse_loop ms agrupado) -> In x v ->
  (exists v', In (k, v') agrupado /\ In x v')
  \/ (exists m, In m ms /\ k = group m "data"
                /\ x = (group m "hora", strip (group m "mensagem"))).
Proof.
  revert agrupado. induction ms as [|m ms IH]; intros agrupado; simpl.
  - intros H Hx. left. eauto.
  - intros H Hx. destruct (IH _ H Hx) as [(v' & H1 & H2)|(m' & H1 & H2)].
    + destruct (dict_append_in _ _ _ _ _ _ H1 H2) as [H3|[H3 H4]].
      * now left.
      * right. exists m. auto.
    + right. exists m'. auto.
Qed.

(** ** Where the matches come from *)

Lemma lstrip_suffix (s : str) : exists u, s = u ++ lstrip s.
Proof.
  induction s as [|c s [u IH]]; simpl; [now exists []|].
  destruct (isspace c); [|now exists []].
  exists (c :: u). simpl. now rewrite <- IH.
Qed.

Lemma after_colon_suffix (s r : str) :
  after_colon s = Some r -> exists u, s = u ++ r.
Proof.
  revert r. induction s as [|c s IH]; intros r; simpl; [discriminate|].
  destruct (notcolon c).
  - intros H. destruct (IH _ H) as [u ->]. now exists (c :: u).
  - intros [= <-]. now exists [c].
Qed.

Lemma split_author_suffix (s r : str) :
  split_author s = Some r -> exists u, s = u ++ r.
Proof.
  unfold split_author. destruct s as [|c s]; [discriminate|].
  destruct (notcolon c); [|discriminate].
  intros H. destruct (after_colon_suffix _ _ H) as [u ->]. now exists (c :: u).
Qed.

(** The layout of a match: the marker of its time and date, the author and
    the whitespace around it, the captured body, and the text it leaves. *)
Lemma match_here_layout (s : str) (m : env) (r : str) :
  match_here s = Some (m, r) ->
  exists gap,
    s = marker (group m "hora") (group m "data")
          ++ gap ++ group m "mensagem" ++ r
    /\ is_hora (group m "hora") = true /\ is_data (group m "data") = true.
Proof.
  rewrite match_here_scan. unfold scan_here.
  destruct (has_shape marker_shape s) as [s1|] eqn:H1; [|discriminate].
  destruct (split_author s1) as [s3|] eqn:H2; [|discriminate].
  pose proof (body_split_app (lstrip s3)) as H3.
  destruct (body_split (lstrip s3)) as [b r']. intros [= <- <-].
  simpl in H3.
  destruct (has_shape_marker_inv _ _ H1) as (Hs & Hh & Hd).
  destruct (split_author_suffix _ _ H2) as [u2 Hu2].
  destruct (lstrip_suffix s3) as [u3 Hu3].
  exists (u2 ++ u3). split; [|split; [exact Hh|exact Hd]].
  change (group _ "hora") with (firstn 5 (skipn 1 s)).
  change (group _ "data") with (firstn 10 (skipn 8 s)).
  change (group _ "mensagem") with b.
  rewrite <- app_assoc, <- H3, <- Hu3, <- Hu2. exact Hs.
Qed.

(** The text a match leaves is a suffix of the text it was found in. *)
Lemma match_here_suffix (s : str) (m : env) (r : str) :
  match_here s = Some (m, r) -> exists u, s = u ++ r.
Proof.
  intros H. destruct (match_here_layout _ _ _ H) as (gap & Hs & _).
  exists (marker (group m "hora") (group m "data")
            ++ gap ++ group m "mensagem").
  rewrite Hs at 1. now rewrite <- !app_assoc.
Qed.

(** What the search finds is a match at some place of the text. *)
Lemma search_found (s : str) (m : env) (r : str) :
  search s = Some (m, r) ->
  exists pre post used,
    s = pre ++ post /\ post = used ++ r /\ match_here post = Some (m, r).
Proof.
  induction s as [|c s IH]; rewrite search_eq.
  - destruct (match_here []) as [p|] eqn:E; [|discriminate].
    intros [= ->]. destruct (match_here_suffix _ _ _ E) as [u Hu].
    exists [], [], u. auto.
  - destruct (match_here (c :: s)) as [p|] eqn:E.
    + intros [= ->]. destruct (match_here_suffix _ _ _ E) as [u Hu].
      exists [], (c :: s), u. auto.
    + intros H. destruct (IH H) as (pre & post & used & -> & H1 & H2).
      exists (c :: pre), post, used. auto.
Qed.

(** Every match of [finditer] is a match of the pattern at some place of
    the text. *)
Lemma finditer_from_in (fuel : nat) (s : str) (m : env) :
  In m (finditer_from fuel s) ->
  exists pre post r, s = pre ++ post /\ match_here post = Some (m, r).
Proof.
  revert s. induction fuel as [|fuel IH]; intros s; cbn [finditer_from].
  - intros [].
  - destruct (search s) as [[m0 r0]|] eqn:E; [|intros []].
    destruct (search_found _ _ _ E) as (pre & post & used & -> & -> & Hm).
    intros [<- | Hin].
    + eauto.
    + destruct (IH _ Hin) as (pre' & post' & r' & -> & Hm').
      exists (pre ++ used ++ pre'), post', r'.
      split; [now rewrite <- !app_assoc|exact Hm'].
Qed.

(** Every match carries the time and the date of a marker of the text, and
    its body is text that follows that marker. *)
Lemma finditer_layout (s : str) (m : env) :
  In m (finditer s) ->
  exists pre gap post,
    s = pre ++ marker (group m "hora") (group m "data")
          ++ gap ++ group m "mensagem" ++ post
    /\ is_hora (group m "hora") = true /\ is_data (group m "data") = true.
Proof.
  intros H. apply finditer_from_in in H.
  destruct H as (pre & post & r & -> & Hm).
  destruct (match_here_layout _ _ _ Hm) as (gap & Hpost & Hh & Hd).
  exists pre, gap, r. now rewrite <- Hpost.
Qed.

Lemma rstrip_prefix (s : str) : exists v, s = rstrip s ++ v.
Proof.
  unfold rstrip. destruct (lstrip_suffix (rev s)) as [u Hu].
  exists (rev u). rewrite <- rev_app_distr, <- Hu. now rewrite rev_involutive.
Qed.

(** The stripped text is a part of the text. *)
Lemma strip_occurs (s : str) : occurs_in (strip s) s.
Proof.
  unfold strip. destruct (lstrip_suffix s) as [u Hu].
  destruct (rstrip_prefix (lstrip s)) as [v Hv].
  exists u, v. now rewrite <- Hv.
Qed.

Lemma occurs_in_trans (x y z : str) :
  occurs_in x y -> occurs_in y z -> occurs_in x z.
Proof.
  intros (a & b & ->) (c & d & ->). exists (c ++ a), (b ++ d).
  now rewrite <- !app_assoc.
Qed.

(** ** The parsed transcript is well formed *)

Lemma dict_append_well_formed (agrupado : dict) (data : str) (r : record) :
  well_formed agrupado = true ->
  is_data data = true -> is_hora (fst r) = true ->
  well_formed (dict_append agrupado data r) = true.
Proof.
  unfold well_formed. intros H Hd Hr.
  induction agrupado as [|[k v] rest IH]; cbn [dict_append forallb fst snd].
  - now rewrite Hd, Hr.
  - cbn [forallb fst snd] in H. apply andb_prop in H. destruct H as [Hkv Hrest].
    apply andb_prop in Hkv. destruct Hkv as [Hk Hv].
    destruct (str_eqb k data); cbn [forallb fst snd].
    + rewrite Hk, Hrest, forallb_app, Hv. cbn [forallb]. now rewrite Hr.
    + now rewrite Hk, Hv, (IH Hrest).
Qed.

Lemma parse_loop_well_formed (ms : list env) (agrupado : dict) :
  (forall m, In m ms ->
             is_hora (group m "hora") = true
             /\ is_data (group m "data") = true) ->
  well_formed agrupado = true ->
  well_formed (parse_loop ms agrupado) = true.
Proof.
  revert agrupado. induction ms as [|m ms IH]; intros agrupado Hms Hwf.
  - exact Hwf.
  - rewrite parse_loop_cons. apply IH.
    + intros m' Hm'. apply Hms. now right.
    + destruct (Hms m (or_introl eq_refl)) as [Hh Hd].
      now apply dict_append_well_formed.
Qed.

(** The dates and times [parse] stores have the shapes of the data model. *)
Lemma parse_well_formed (self : WhatsAppParser) (text : str) :
  well_formed (messages (fst (parse self text))) = true.
Proof.
  cbn [parse fst messages]. apply parse_loop_well_formed; [|reflexivity].
  intros m Hm. destruct (finditer_layout _ _ Hm) as (_ & _ & _ & _ & Hh & Hd).
  auto.
Qed.

(** ** Order of the keys and of the records *)

Lemma str_eqb_eq (a b : str) : str_eqb a b = true -> a = b.
Proof. unfold str_eqb. now destruct (list_eq_dec ascii_dec a b). Qed.

Lemma str_eqb_sym (a b : str) : str_eqb a b = str_eqb b a.
Proof.
  unfold str_eqb.
  destruct (list_eq_dec ascii_dec a b), (list_eq_dec ascii_dec b a); congruence.
Qed.

(** Appending under a date puts a new key last and moves no key. *)
Lemma keys_dict_append (agrupado : dict) (data : str) (r : record) :
  keys (dict_append agrupado data r) = see (keys agrupado) data.
Proof.
  unfold see. induction agrupado as [|[k v] rest IH]; [reflexivity|].
  cbn [dict_append keys map fst existsb]. rewrite (str_eqb_sym data k).
  destruct (str_eqb k data); [reflexivity|]. cbn [orb keys map fst].
  fold (keys (dict_append rest data r)). rewrite IH. fold (keys rest).
  now destruct (existsb (str_eqb data) (keys rest)).
Qed.

(** Appending under a date grows the list of that date at its end and
    changes no other list. *)
Lemma dict_get_append (agrupado : dict) (data : str) (r : record) (d : str) :
  dict_get (dict_append agrupado data r) d =
  if str_eqb data d then dict_get agrupado d ++ [r] else dict_get agrupado d.
Proof.
  induction agrupado as [|[k v] rest IH]; cbn [dict_append dict_get].
  - now destruct (str_eqb data d).
  - destruct (str_eqb k data) eqn:E; cbn [dict_get].
    + apply str_eqb_eq in E. subst k. now destruct (str_eqb data d).
    + rewrite IH. destruct (str_eqb k d) eqn:E2; [|reflexivity].
      apply str_eqb_eq in E2. subst k. now rewrite str_eqb_sym, E.
Qed.

Lemma parse_loop_keys (ms : list env) (agrupado : dict) :
  keys (parse_loop ms agrupado) =
  fold_left see (map (fun m => group m "data") ms) (keys agrupado).
Proof.
  revert agrupado. induction ms as [|m ms IH]; intros agrupado; [reflexivity|].
  rewrite parse_loop_cons, IH. unfold parse_step.
  now rewrite keys_dict_append.
Qed.

Lemma parse_loop_get (ms : list env) (agrupado : dict) (d : str) :
  dict_get (parse_loop ms agrupado) d =
  dict_get agrupado d
    ++ map (fun m => (group m "hora", strip (group m "mensagem")))
         (filter (fun m => str_eqb (group m "data") d) ms).
Proof.
  revert agrupado. induction ms as [|m ms IH]; intros agrupado.
  - cbn. now rewrite app_nil_r.
  - rewrite parse_loop_cons, IH. unfold parse_step.
    rewrite dict_get_append. cbn [filter].
    destruct (str_eqb (group m "data") d); [|reflexivity].
    cbn [map]. now rewrite <- app_assoc.
Qed.

(** * The parser *)

Lemma parse_returns (self : WhatsAppParser) (text : str) :
  snd (parse self text) = parse_loop (finditer text) [].
Proof. reflexivity. Qed.

(** The keys of the result are the dates of the matches in the order first
    seen: no sorting. *)
Lemma parse_keys (self : WhatsAppParser) (text : str) :
  keys (snd (parse self text)) = first_seen (dates_of text).
Proof. rewrite parse_returns. apply parse_loop_keys. Qed.

(** The entry of a date holds the records of the matches with that date, all
    of them and in the order of the text: no deduplication. *)
Lemma parse_entry (self : WhatsAppParser) (text d : str) :
  dict_get (snd (parse self text)) d =
  map (fun m => (group m "hora", strip (group m "mensagem")))
    (filter (fun m => str_eqb (group m "data") d) (finditer text)).
Proof. rewrite parse_returns. apply parse_loop_get. Qed.

(** Text in which no marker starts is passed over, whatever follows it. *)
Lemma parse_skip_prefix (self : WhatsAppParser) (pre s : str) :
  markers_within pre s = 0%nat ->
  snd (parse self (pre ++ s)) = snd (parse self s).
Proof.
  intros H. rewrite !parse_returns.
  now rewrite (finditer_unfold (pre ++ s)), (search_skip _ _ H),
    <- finditer_unfold.
Qed.

Lemma count_markers_app (pre s : str) :
  count_markers (pre ++ s) = (markers_within pre s + count_markers s)%nat.
Proof.
  unfold count_markers. now rewrite markers_within_app, app_nil_r.
Qed.

(** In a text with one marker only, no marker starts before that marker or
    in the text after its author. *)
Lemma one_marker_only (pre h d a body : str) :
  is_hora h = true -> is_data d = true ->
  count_markers (pre ++ marker h d ++ a ++ ":" :: body) = 1%nat ->
  markers_within pre (marker h d ++ a ++ ":" :: body) = 0%nat
  /\ markers_within body [] = 0%nat.
Proof.
  intros Hh Hd. rewrite count_markers_app.
  pose proof (marker_here_marker h d (a ++ ":" :: body) Hh Hd) as Hm.
  unfold marker in *. cbn [app] in *.
  unfold count_markers at 1. cbn [markers_within].
  rewrite app_nil_r, Hm.
  replace ((h ++ "," :: " " :: d ++ ["]"]) ++ a ++ ":" :: body)
    with (((h ++ "," :: " " :: d ++ ["]"]) ++ a ++ [":"]) ++ body)
    by (now rewrite <- !app_assoc).
  rewrite markers_within_app. lia.
Qed.

(** C6: a text in which no well-formed marker occurs parses to the empty
    dict; [parse] returns it, and stores it, without raising. *)
Theorem parse_no_marker (self : WhatsAppParser) (text : str) :
  count_markers text = 0%nat ->
  parse self text = ({| raw_text := raw_text self; messages := [] |}, []).
Proof.
  intros H. unfold parse.
  now rewrite finditer_unfold, (search_no_marker _ H).
Qed.

Lemma parse_no_marker_witness :
  count_markers no_marker_text = 0%nat
  /\ snd (parse (__init__ None) no_marker_text) = [].
Proof.
  split; [reflexivity|].
  rewrite (parse_no_marker (__init__ None)); reflexivity.
Defined.

(** C3: the body capture spans newlines: the two-message text with a
    two-line first body parses to one date with the two records. *)
Theorem parse_multiline (self : WhatsAppParser) :
  snd (parse self multiline_text) =
  [(txt "01/01/2024",
    [(txt "09:00", txt "line1" ++ LF :: txt "line2");
     (txt "09:05", txt "next")])].
Proof. vm_compute. reflexivity. Qed.

(** C7: a message with nothing after the author separator is stored with
    the empty string as its body. *)
Theorem parse_empty_body (self : WhatsAppParser) :
  snd (parse self empty_body_text) = [(txt "02/02/2024", [(txt "10:00", [])])].
Proof. vm_compute. reflexivity. Qed.

(** A message of the text is a match: its date is the next date of the
    matches and its record the next record. *)
Lemma dates_of_message (pre h d a mid s2 : str) :
  is_hora h = true -> is_data d = true ->
  a <> [] -> forallb notcolon a = true ->
  markers_within pre (marker h d ++ a ++ ":" :: mid ++ s2) = 0%nat ->
  markers_within mid s2 = 0%nat ->
  s2 = [] \/ marker_here s2 = true ->
  dates_of (pre ++ marker h d ++ a ++ ":" :: mid ++ s2) = d :: dates_of s2
  /\ records_of (pre ++ marker h d ++ a ++ ":" :: mid ++ s2) =
     (h, strip mid) :: records_of s2.
Proof.
  intros Hh Hd Ha Hc Hpre Hmid Hs2. unfold dates_of, records_of.
  destruct (finditer_message pre h d a mid s2 Hh Hd Ha Hc Hpre Hmid Hs2)
    as (b & -> & Hb).
  cbn [map group String.eqb Ascii.eqb Bool.eqb]. now rewrite Hb.
Qed.

(** When the matches of a text carry the dates D1, D2, D1, the keys of the
    result are D1 then D2, in the order first seen, and the entry of D1
    holds the first and the third record in that order. *)
Theorem parse_order (self : WhatsAppParser) (text D1 D2 : str) :
  D1 <> D2 ->
  dates_of text = [D1; D2; D1] ->
  exists r1 r2 r3,
    records_of text = [r1; r2; r3]
    /\ snd (parse self text) = [(D1, [r1; r3]); (D2, [r2])].
Proof.
  intros Hne Hd. rewrite parse_returns. unfold dates_of, records_of in *.
  destruct (finditer text) as [|m1 [|m2 [|m3 [|m4 ms]]]]; try discriminate.
  cbn [map] in *. injection Hd as E1 E2 E3.
  do 3 eexists. split; [reflexivity|].
  cbn [parse_loop fold_left parse_step dict_append].
  rewrite E1, E2, E3. cbn [dict_append].
  rewrite (str_eqb_neq _ _ Hne). cbn [dict_append].
  rewrite str_eqb_refl. reflexivity.
Qed.

Lemma parse_order_witness :
  exists r1 r2 r3,
    records_of three_dates_text = [r1; r2; r3]
    /\ snd (parse (__init__ None) three_dates_text) =
       [(txt "02/01/2024", [r1; r3]); (txt "01/01/2024", [r2])].
Proof.
  apply (parse_order (__init__ None) three_dates_text
           (txt "02/01/2024") (txt "01/01/2024")).
  - vm_compute. discriminate.
  - vm_compute. reflexivity.
Defined.

(** The time and date of every stored record are those of a marker of the
    text, and its body is text of the input. *)
Theorem parse_records_literal (self : WhatsAppParser) (text d : str)
    (recs : list record) (h b : str) :
  In (d, recs) (snd (parse self text)) -> In (h, b) recs ->
  occurs_in (marker h d) text /\ occurs_in b text.
Proof.
  intros H Hx. rewrite parse_returns in H.
  destruct (parse_loop_in _ _ _ _ _ H Hx) as [(v' & [] & _)|(m & Hm & -> & E)].
  injection E as -> ->.
  destruct (finditer_layout _ _ Hm) as (pre & gap & post & Htext & _).
  split.
  - exists pre, (gap ++ group m "mensagem" ++ post). exact Htext.
  - apply (occurs_in_trans _ (group m "mensagem")); [apply strip_occurs|].
    exists (pre ++ marker (group m "hora") (group m "data") ++ gap), post.
    rewrite Htext at 1. now rewrite <- !app_assoc.
Qed.

Lemma parse_records_literal_witness :
  occurs_in (marker (txt "09:05") (txt "01/01/2024")) multiline_text
  /\ occurs_in (txt "next") multiline_text.
Proof.
  apply (parse_records_literal (__init__ None) multiline_text (txt "01/01/2024")
           [(txt "09:00", txt "line1" ++ LF :: txt "line2");
            (txt "09:05", txt "next")]
           (txt "09:05") (txt "next")).
  - vm_compute. left. reflexivity.
  - vm_compute. right. left. reflexivity.
Defined.

Lemma parse_message (self : WhatsAppParser) (pre h d a mid s2 : str) :
  is_hora h = true -> is_data d = true ->
  a <> [] -> forallb notcolon a = true ->
  markers_within pre (marker h d ++ a ++ ":" :: mid ++ s2) = 0%nat ->
  markers_within mid s2 = 0%nat ->
  s2 = [] \/ marker_here s2 = true ->
  snd (parse self (pre ++ marker h d ++ a ++ ":" :: mid ++ s2)) =
  parse_loop (finditer s2) [(d, [(h, strip mid)])].
Proof.
  intros Hh Hd Ha Hc Hpre Hmid Hs2. rewrite parse_returns.
  destruct (finditer_message pre h d a mid s2 Hh Hd Ha Hc Hpre Hmid Hs2)
    as (b & -> & Hb).
  rewrite parse_loop_cons. unfold parse_step.
  cbn [group String.eqb Ascii.eqb Bool.eqb dict_append]. now rewrite Hb.
Qed.

(** C1, as the code has it: text that comes before a message and in which
    no well-formed marker starts gives no record and is not put into the
    record of the message that follows; the body of a message is all the text
    from its author separator to the next well-formed marker, or to the end
    of the text, stripped, so a malformed marker in that stretch stays in the
    body of the message before it.  The remaining messages are grouped after
    this record. *)
Theorem parse_unmatched_span (self : WhatsAppParser)
    (pre h d a mid s2 : str) :
  is_hora h = true -> is_data d = true ->
  a <> [] -> forallb notcolon a = true ->
  markers_within pre (marker h d ++ a ++ ":" :: mid ++ s2) = 0%nat ->
  markers_within mid s2 = 0%nat ->
  s2 = [] \/ marker_here s2 = true ->
  snd (parse self (pre ++ marker h d ++ a ++ ":" :: mid ++ s2)) =
  parse_loop (finditer s2) [(d, [(h, strip mid)])]
  /\ snd (parse self (pre ++ marker h d ++ a ++ ":" :: mid ++ s2)) =
     snd (parse self (marker h d ++ a ++ ":" :: mid ++ s2)).
Proof.
  intros Hh Hd Ha Hc Hpre Hmid Hs2. split.
  - now apply parse_message.
  - rewrite (parse_message self pre h d a mid s2); auto.
    symmetry. now apply (parse_message self [] h d a mid s2).
Qed.

Lemma parse_unmatched_span_witness :
  snd (parse (__init__ None)
         (txt "[1:0, x] lost " ++ marker (txt "10:00") (txt "02/02/2024")
            ++ txt " A" ++ ":" :: txt " hi [1:00, 02/02/2024] B: yo "
            ++ txt "[11:00, 02/02/2024] C: ok")) =
  parse_loop (finditer (txt "[11:00, 02/02/2024] C: ok"))
    [(txt "02/02/2024", [(txt "10:00", txt "hi [1:00, 02/02/2024] B: yo")])].
Proof.
  apply (parse_unmatched_span (__init__ None) (txt "[1:0, x] lost ")
           (txt "10:00") (txt "02/02/2024") (txt " A")
           (txt " hi [1:00, 02/02/2024] B: yo ")
           (txt "[11:00, 02/02/2024] C: ok")).
  - reflexivity.
  - reflexivity.
  - discriminate.
  - reflexivity.
  - reflexivity.
  - reflexivity.
  - right. reflexivity.
Defined.

(** C1 as stated fails: a malformed marker after a message is not dropped,
    it is in the body of the message before it. *)
Lemma malformed_marker_kept :
  count_markers malformed_span = 0%nat
  /\ occurs_in malformed_span malformed_text
  /\ snd (parse (__init__ None) malformed_text) =
     [(txt "02/02/2024", [(txt "10:00", txt "hi [1:00, 02/02/2024] B: yo")])]
  /\ ~ never_appended malformed_text malformed_span.
Proof.
  split; [reflexivity|]. split.
  { exists (txt "[10:00, 02/02/2024] A: hi "), (txt " B: yo"). reflexivity. }
  split; [vm_compute; reflexivity|].
  intros H.
  apply (H (__init__ None) (txt "02/02/2024")
           [(txt "10:00", txt "hi [1:00, 02/02/2024] B: yo")]
           (txt "10:00") (txt "hi [1:00, 02/02/2024] B: yo")).
  - vm_compute. left. reflexivity.
  - left. reflexivity.
  - exists (txt "hi "), (txt " B: yo"). reflexivity.
Qed.

(** C2, as the code has it: in a text with exactly one well-formed marker,
    followed by an author (a non-empty run without colon) and a colon, the
    result has exactly one date with exactly one record, and its body is the
    text after that colon, stripped. *)
Theorem parse_single_message (self : WhatsAppParser)
    (pre h d a body : str) :
  is_hora h = true -> is_data d = true ->
  a <> [] -> forallb notcolon a = true ->
  count_markers (pre ++ marker h d ++ a ++ ":" :: body) = 1%nat ->
  snd (parse self (pre ++ marker h d ++ a ++ ":" :: body)) =
  [(d, [(h, strip body)])].
Proof.
  intros Hh Hd Ha Hc Hone.
  destruct (one_marker_only pre h d a body Hh Hd Hone) as [Hpre Hbody].
  rewrite <- (app_nil_r body) at 1. rewrite <- (app_nil_r body) in Hpre.
  rewrite (parse_message self pre h d a body [] Hh Hd Ha Hc Hpre Hbody);
    [reflexivity|now left].
Qed.

Lemma parse_single_message_witness :
  snd (parse (__init__ None)
         (txt "exported chat" ++ marker (txt "10:00") (txt "02/02/2024")
            ++ txt " A" ++ ":" :: txt " hello " ++ [LF])) =
  [(txt "02/02/2024", [(txt "10:00", strip (txt " hello " ++ [LF]))])].
Proof.
  apply (parse_single_message (__init__ None) (txt "exported chat")
           (txt "10:00") (txt "02/02/2024") (txt " A")
           (txt " hello " ++ [LF])).
  - reflexivity.
  - reflexivity.
  - discriminate.
  - reflexivity.
  - reflexivity.
Defined.

(** C2 as stated fails: a marker followed by text without an author and a
    colon gives no record, and where the author is there the body is the
    text after the author's colon, not the text after the marker. *)
Lemma single_marker_not_enough :
  (count_markers no_author_text = 1%nat
   /\ snd (parse (__init__ None) no_author_text) = []
   /\ ~ body_is_trailing_text no_author_text)
  /\ (count_markers one_message_text = 1%nat
      /\ snd (parse (__init__ None) one_message_text) =
         [(txt "02/02/2024", [(txt "10:00", txt "hello")])]
      /\ ~ body_is_trailing_text one_message_text).
Proof.
  split; (split; [reflexivity|split; [reflexivity|]]); intros H.
  - specialize (H eq_refl (__init__ None) [] (txt "10:00") (txt "02/02/2024")
                  (txt " hello") eq_refl eq_refl eq_refl).
    vm_compute in H. discriminate H.
  - specialize (H eq_refl (__init__ None) [] (txt "10:00") (txt "02/02/2024")
                  (txt " A: hello") eq_refl eq_refl eq_refl).
    vm_compute in H. discriminate H.
Qed.

(** C9: [parse] replaces the stored messages: after [parse(t1)] and then
    [parse(t2)] the instance stores what [parse(t2)] returns on a fresh
    instance, whatever was stored before. *)
Theorem parse_replaces (self : WhatsAppParser) (t1 t2 : str) :
  messages (fst (parse (fst (parse self t1)) t2)) =
  snd (parse (__init__ None) t2).
Proof. reflexivity. Qed.

(** C10, as the code has it: an instance built without text stores the
    empty dict and renders to the empty string; an instance built with a
    text stores, renders and prints what an empty instance does after
    [parse] of that text, and differs from it in the attribute [raw_text]
    only, which the constructor sets and [parse] leaves as it is; and
    [parse] always returns the dict it stores. *)
Theorem init_parse (text : str) (self : WhatsAppParser) :
  messages (__init__ None) = []
  /\ to_markdown (__init__ None) = []
  /\ messages (__init__ (Some text)) =
     messages (fst (parse (__init__ None) text))
  /\ to_markdown (__init__ (Some text)) =
     to_markdown (fst (parse (__init__ None) text))
  /\ snd (parse self text) = messages (fst (parse self text))
  /\ (forall stdout,
        pretty_print (__init__ (Some text)) stdout =
        pretty_print (fst (parse (__init__ None) text)) stdout)
  /\ __init__ (Some text) =
     {| raw_text := Some text;
        messages := messages (fst (parse (__init__ None) text)) |}
  /\ fst (parse (__init__ None) text) =
     {| raw_text := None;
        messages := messages (fst (parse (__init__ None) text)) |}
  /\ raw_text (fst (parse self text)) = raw_text self.
Proof. repeat split. Qed.

(** C10 as stated fails: built with a text, the instance is not the one
    built empty and then made to [parse] the text: they differ in
    [raw_text]. *)
Lemma init_differs_from_parse :
  __init__ (Some one_message_text)
  <> fst (parse (__init__ None) one_message_text)
  /\ raw_text (__init__ (Some one_message_text)) = Some one_message_text
  /\ raw_text (fst (parse (__init__ None) one_message_text)) = None.
Proof.
  split; [|split; reflexivity].
  intros H. apply (f_equal raw_text) in H. discriminate H.
Qed.

(** The attribute [raw_text], which no method reads, keeps the argument of
    the constructor: [parse] does not set it. *)
Lemma init_raw_text (text : str) :
  raw_text (__init__ (Some text)) = Some text
  /\ raw_text (fst (parse (__init__ None) text)) = None.
Proof. split; reflexivity. Qed.


(** * The renderer *)

(** ** Lines and newlines *)

Lemma not_linebreak_not_LF (c : ascii) :
  islinebreak c = false -> Ascii.eqb c LF = false.
Proof. by_cases_on_char c. Qed.

Lemma splitlines_no_lf_upto (n : nat) (s : str) :
  length s <= n -> forallb no_lf (splitlines s) = true.
Proof.
  revert s. induction n as [|n IH]; intros s Hn.
  - destruct s; [reflexivity|simpl in Hn; lia].
  - destruct s as [|c s]; [reflexivity|]. simpl in Hn.
    cbn [splitlines]. destruct (islinebreak c) eqn:E.
    + destruct s as [|x s]; [reflexivity|].
      destruct (Ascii.eqb c CR && Ascii.eqb x LF); cbn [forallb no_lf andb];
        apply IH; simpl in *; lia.
    + pose proof (IH s ltac:(lia)) as Hs.
      destruct (splitlines s) as [|l ls]; cbn [forallb no_lf andb] in *;
        rewrite (not_linebreak_not_LF _ E); cbn [negb andb]; [reflexivity|].
      exact Hs.
Qed.

(** The lines of [splitlines] hold no newline. *)
Lemma splitlines_no_lf (s : str) : forallb no_lf (splitlines s) = true.
Proof. apply (splitlines_no_lf_upto (length s)). lia. Qed.

Lemma split_lf_no_lf (l : str) : no_lf l = true -> split_lf l = [l].
Proof.
  induction l as [|c l IH]; [reflexivity|]. cbn [no_lf forallb split_lf].
  destruct (Ascii.eqb c LF); [discriminate|]. cbn [negb andb].
  intros H. now rewrite (IH H).
Qed.

Lemma split_lf_app (l rest : str) :
  no_lf l = true -> split_lf (l ++ LF :: rest) = l :: split_lf rest.
Proof.
  induction l as [|c l IH]; [reflexivity|]. cbn [no_lf forallb split_lf app].
  destruct (Ascii.eqb c LF); [discriminate|]. cbn [negb andb].
  intros H. now rewrite (IH H).
Qed.

(** Splitting the joined lines at the newlines gives the lines back. *)
Lemma split_lf_join (lines : list str) :
  lines <> [] -> forallb no_lf lines = true ->
  split_lf (join [LF] lines) = lines.
Proof.
  induction lines as [|l rest IH]; [congruence|]. intros _.
  cbn [forallb join]. intros H. apply andb_prop in H. destruct H as [Hl Hrest].
  destruct rest as [|l2 rest]; [now apply split_lf_no_lf|].
  cbn [app]. rewrite (split_lf_app _ _ Hl). f_equal.
  apply IH; [discriminate|exact Hrest].
Qed.

Lemma exactly_no_lf (sh : shape) (x : str) :
  forallb (fun p : ascii -> bool => negb (p LF)) sh = true ->
  exactly sh x = true -> no_lf x = true.
Proof.
  unfold exactly. revert x. induction sh as [|p sh IH]; intros x; simpl.
  - destruct x; [reflexivity|discriminate].
  - intros H. apply andb_prop in H. destruct H as [Hp Hsh].
    destruct x as [|c x]; [discriminate|].
    destruct (p c) eqn:E; [|discriminate].
    intros Hx. simpl. rewrite (IH _ Hsh Hx), andb_true_r.
    destruct (Ascii.eqb c LF) eqn:Ec; [|reflexivity].
    apply Ascii.eqb_eq in Ec. subst c. rewrite E in Hp. discriminate.
Qed.

Lemma is_hora_no_lf (h : str) : is_hora h = true -> no_lf h = true.
Proof. now apply exactly_no_lf. Qed.

Lemma is_data_no_lf (d : str) : is_data d = true -> no_lf d = true.
Proof. now apply exactly_no_lf. Qed.

Lemma no_lf_app (a b : str) : no_lf (a ++ b) = no_lf a && no_lf b.
Proof. apply forallb_app. Qed.

(** ** The lines of the rendered text *)

Lemma record_lines_no_lf (r : record) :
  is_hora (fst r) = true -> forallb no_lf (record_lines r) = true.
Proof.
  destruct r as [hora mensagem]. intros H. cbn [record_lines forallb fst] in *.
  rewrite !no_lf_app, (is_hora_no_lf _ H). cbn [andb].
  replace (no_lf (txt "- **")) with true by reflexivity.
  replace (no_lf (txt "**")) with true by reflexivity. cbn [andb].
  pose proof (splitlines_no_lf mensagem) as Hs. revert Hs.
  induction (splitlines mensagem) as [|l ls IH]; [reflexivity|].
  cbn [forallb map]. intros Hs. apply andb_prop in Hs. destruct Hs as [Hl Hls].
  rewrite (IH Hls), andb_true_r, no_lf_app, Hl. reflexivity.
Qed.

Lemma date_lines_no_lf (entry : str * list record) :
  is_data (fst entry) = true ->
  forallb (fun r : record => is_hora (fst r)) (snd entry) = true ->
  forallb no_lf (date_lines entry) = true.
Proof.
  destruct entry as [data msgs]. cbn [fst snd date_lines forallb].
  intros Hd Hm. rewrite no_lf_app, (is_data_no_lf _ Hd).
  replace (no_lf (txt "## ")) with true by reflexivity. cbn [andb].
  rewrite forallb_app. cbn [forallb no_lf]. rewrite !andb_true_r.
  induction msgs as [|r msgs IH]; [reflexivity|].
  cbn [forallb flat_map] in *. apply andb_prop in Hm. destruct Hm as [Hr Hm].
  now rewrite forallb_app, (record_lines_no_lf _ Hr), (IH Hm).
Qed.

Lemma md_lines_no_lf (msgs : dict) :
  well_formed msgs = true -> forallb no_lf (md_lines msgs) = true.
Proof.
  unfold well_formed, md_lines.
  induction msgs as [|entry msgs IH]; [reflexivity|].
  cbn [forallb flat_map]. intros H. apply andb_prop in H.
  destruct H as [He Hm]. apply andb_prop in He. destruct He as [Hd Hr].
  now rewrite forallb_app, (date_lines_no_lf _ Hd Hr), (IH Hm).
Qed.

Lemma starts_with_app (p x : str) : starts_with p (p ++ x) = true.
Proof.
  induction p as [|c p IH]; [reflexivity|]. simpl.
  now rewrite Ascii.eqb_refl, IH.
Qed.

(** One record adds one time marker and no date header. *)
Lemma record_lines_count (r : record) :
  length (filter (starts_with (txt "- **")) (record_lines r)) = 1%nat
  /\ length (filter (starts_with (txt "## ")) (record_lines r)) = 0%nat.
Proof.
  destruct r as [hora mensagem]. cbn [record_lines filter].
  rewrite starts_with_app.
  replace (starts_with (txt "## ") (txt "- **" ++ hora ++ txt "**"))
    with false by reflexivity.
  cbn [length].
  induction (splitlines mensagem) as [|l ls [IH1 IH2]]; [split; reflexivity|].
  cbn [map filter].
  replace (starts_with (txt "- **") (txt "  " ++ l)) with false
    by reflexivity.
  replace (starts_with (txt "## ") (txt "  " ++ l)) with false
    by reflexivity.
  auto.
Qed.

Lemma filter_length_app {A : Type} (f : A -> bool) (l1 l2 : list A) :
  length (filter f (l1 ++ l2)) =
  (length (filter f l1) + length (filter f l2))%nat.
Proof. now rewrite filter_app, length_app. Qed.

(** One date adds one date header and one time marker for each record. *)
Lemma date_lines_count (entry : str * list record) :
  length (filter (starts_with (txt "## ")) (date_lines entry)) = 1%nat
  /\ length (filter (starts_with (txt "- **")) (date_lines entry)) =
     length (snd entry).
Proof.
  destruct entry as [data msgs]. cbn [date_lines filter snd].
  rewrite starts_with_app.
  replace (starts_with (txt "- **") (txt "## " ++ data)) with false
    by reflexivity.
  cbn [length]. rewrite !filter_length_app.
  change (filter (starts_with (txt "## ")) [[]]) with (@nil str).
  change (filter (starts_with (txt "- **")) [[]]) with (@nil str).
  cbn [length]. rewrite !Nat.add_0_r.
  induction msgs as [|r msgs [IH1 IH2]]; [split; reflexivity|].
  cbn [flat_map length]. rewrite !filter_length_app.
  destruct (record_lines_count r) as [H1 H2].
  rewrite H1, H2. split; lia.
Qed.

Lemma md_lines_count (msgs : dict) :
  length (filter (starts_with (txt "## ")) (md_lines msgs)) = length msgs
  /\ length (filter (starts_with (txt "- **")) (md_lines msgs)) =
     total_records msgs.
Proof.
  unfold md_lines, total_records.
  induction msgs as [|entry msgs [IH1 IH2]]; [split; reflexivity|].
  cbn [flat_map map list_sum length]. rewrite !filter_length_app.
  destruct (date_lines_count entry) as [H1 H2].
  rewrite H1, H2, IH1, IH2. auto.
Qed.

(** C8: the rendered text of a parsed transcript has as many date headers
    as the dict has keys, and as many time markers as it has records. *)
Theorem to_markdown_counts (self : WhatsAppParser) :
  well_formed (messages self) = true ->
  count_date_headers (to_markdown self) = length (messages self)
  /\ count_time_markers (to_markdown self) = total_records (messages self).
Proof.
  intros Hwf. unfold count_date_headers, count_time_markers, count_lines.
  unfold to_markdown.
  destruct (messages self) as [|entry msgs] eqn:E; [split; reflexivity|].
  rewrite split_lf_join.
  - apply md_lines_count.
  - destruct entry as [data recs]. discriminate.
  - now apply md_lines_no_lf.
Qed.

Lemma to_markdown_counts_witness :
  count_date_headers (to_markdown three_dates_parser) = 2%nat
  /\ count_time_markers (to_markdown three_dates_parser) = 3%nat.
Proof.
  apply (to_markdown_counts three_dates_parser).
  reflexivity.
Defined.

(** * Further properties of the parser *)

(** ** The pattern *)

(** X1: at every position the backtracking match of [TIMESTAMP_PATTERN] is
    the written-out scan: a marker, the text up to the first colon (not
    empty), the whitespace after it, and the body up to the next marker or
    the end of the text. *)
Theorem pattern_is_scan (s : str) :
  rmatch TIMESTAMP_PATTERN s [] (fun s' e => Some (e, s')) = scan_here s.
Proof. exact (match_here_scan s). Qed.

Lemma has_shape_app_rest (sh : shape) (s r z : str) :
  has_shape sh s = Some r -> has_shape sh (s ++ z) = Some (r ++ z).
Proof.
  revert s. induction sh as [|p sh IH]; intros s; simpl.
  - now intros [= ->].
  - destruct s as [|c s]; [discriminate|]. simpl.
    destruct (p c); [apply IH|discriminate].
Qed.

Lemma marker_here_app (s z : str) :
  marker_here s = true -> marker_here (s ++ z) = true.
Proof.
  unfold marker_here.
  destruct (has_shape marker_shape s) as [r|] eqn:E; [|discriminate].
  now rewrite (has_shape_app_rest _ _ _ z E).
Qed.

Lemma markers_within_nil_le (x z : str) :
  markers_within x [] <= markers_within x z.
Proof.
  induction x as [|c x IH]; [reflexivity|]. cbn [markers_within].
  rewrite app_nil_r.
  destruct (marker_here (c :: x)) eqn:E.
  - rewrite (marker_here_app (c :: x) z E). lia.
  - destruct (marker_here ((c :: x) ++ z)); lia.
Qed.

Lemma match_here_marker (s : str) (m : env) (r : str) :
  match_here s = Some (m, r) -> marker_here s = true.
Proof.
  intros H. destruct (marker_here s) eqn:E; [reflexivity|].
  rewrite (match_here_no_marker _ E) in H. discriminate.
Qed.

(** What the search finds uses up one marker of the text at least. *)
Lemma search_uses_marker (s : str) (m : env) (r : str) :
  search s = Some (m, r) -> S (count_markers r) <= count_markers s.
Proof.
  intros H.
  destruct (search_found _ _ _ H) as (pre & post & used & -> & -> & Hm).
  pose proof (match_here_marker _ _ _ Hm) as Hmk.
  pose proof (match_here_shorter _ _ _ Hm) as Hlen.
  rewrite !count_markers_app.
  destruct used as [|c used]; [simpl in Hlen; lia|].
  cbn [markers_within]. rewrite Hmk. lia.
Qed.

Lemma finditer_from_bound (fuel : nat) (s : str) :
  length (finditer_from fuel s) <= count_markers s.
Proof.
  revert s. induction fuel as [|fuel IH]; intros s; cbn [finditer_from].
  - simpl. lia.
  - destruct (search s) as [[m r]|] eqn:E; [|simpl; lia].
    apply search_uses_marker in E. specialize (IH r). simpl. lia.
Qed.

(** ** The loop *)

Lemma total_records_cons (k : str) (v : list record) (rest : dict) :
  total_records ((k, v) :: rest) = (length v + total_records rest)%nat.
Proof. reflexivity. Qed.

Lemma total_records_append (agrupado : dict) (data : str) (r : record) :
  total_records (dict_append agrupado data r) = S (total_records agrupado).
Proof.
  induction agrupado as [|[k v] rest IH]; [reflexivity|].
  cbn [dict_append]. destruct (str_eqb k data);
    rewrite !total_records_cons.
  - rewrite length_app. simpl. lia.
  - rewrite IH. lia.
Qed.

Lemma parse_loop_total (ms : list env) (agrupado : dict) :
  total_records (parse_loop ms agrupado) =
  (total_records agrupado + length ms)%nat.
Proof.
  revert agrupado. induction ms as [|m ms IH]; intros agrupado.
  - simpl. lia.
  - rewrite parse_loop_cons, IH. unfold parse_step.
    rewrite total_records_append. simpl. lia.
Qed.

(** X2: every match becomes one stored record, none is merged or dropped,
    and there are at most as many records as the text has well-formed
    markers. *)
Theorem parse_record_count (self : WhatsAppParser) (text : str) :
  total_records (snd (parse self text)) = length (finditer text)
  /\ total_records (snd (parse self text)) <= count_markers text.
Proof.
  rewrite parse_returns, parse_loop_total.
  change (total_records []) with 0%nat. cbn [Nat.add].
  split; [reflexivity|]. apply finditer_from_bound.
Qed.

Lemma see_NoDup (seen : list str) (d : str) :
  NoDup seen -> NoDup (see seen d).
Proof.
  intros H. unfold see. destruct (existsb (str_eqb d) seen) eqn:E; [exact H|].
  apply NoDup_app; [exact H|repeat constructor; intros []|].
  intros x Hx [->|[]].
  assert (existsb (str_eqb x) seen = true); [|congruence].
  apply existsb_exists. exists x. split; [exact Hx|apply str_eqb_refl].
Qed.

Lemma see_In (seen : list str) (d x : str) :
  In x (see seen d) <-> In x seen \/ x = d.
Proof.
  unfold see. destruct (existsb (str_eqb d) seen) eqn:E.
  - apply existsb_exists in E. destruct E as (y & Hy & Heq).
    apply str_eqb_eq in Heq. subst y. split; [auto|]. intros [H| ->]; auto.
  - rewrite in_app_iff. simpl. split; intros [H|H]; auto.
    + destruct H as [H|[]]. auto.
Qed.

Lemma fold_see_NoDup (ds seen : list str) :
  NoDup seen -> NoDup (fold_left see ds seen).
Proof.
  revert seen. induction ds as [|d ds IH]; intros seen H; [exact H|].
  simpl. apply IH. now apply see_NoDup.
Qed.

Lemma fold_see_In (ds seen : list str) (x : str) :
  In x (fold_left see ds seen) <-> In x seen \/ In x ds.
Proof.
  revert seen. induction ds as [|d ds IH]; intros seen; simpl.
  - tauto.
  - rewrite IH, see_In. split; intros H; intuition auto.
Qed.

(** X3: the keys of the result are the dates of the matches, each once, in
    the order in which each date is first seen in the text. *)
Theorem parse_keys_distinct (self : WhatsAppParser) (text : str) :
  keys (snd (parse self text)) = first_seen (dates_of text)
  /\ NoDup (keys (snd (parse self text)))
  /\ (forall d, In d (keys (snd (parse self text))) <-> In d (dates_of text)).
Proof.
  rewrite parse_returns, parse_loop_keys. fold (dates_of text).
  cbn [keys map]. split; [reflexivity|]. split.
  - apply fold_see_NoDup. constructor.
  - intros d. rewrite fold_see_In. simpl. tauto.
Qed.

Lemma dict_append_nonempty (agrupado : dict) (data : str) (r : record) :
  Forall (fun entry => snd entry <> []) agrupado ->
  Forall (fun entry => snd entry <> []) (dict_append agrupado data r).
Proof.
  induction 1 as [|[k v] rest Hkv Hrest IH]; cbn [dict_append].
  - repeat constructor. discriminate.
  - destruct (str_eqb k data); constructor; auto.
    simpl. destruct v; discriminate.
Qed.

Lemma parse_loop_nonempty (ms : list env) (agrupado : dict) :
  Forall (fun entry => snd entry <> []) agrupado ->
  Forall (fun entry => snd entry <> []) (parse_loop ms agrupado).
Proof.
  revert agrupado. induction ms as [|m ms IH]; intros agrupado H; [exact H|].
  rewrite parse_loop_cons. apply IH. now apply dict_append_nonempty.
Qed.

(** X4: no date of the result has an empty list: a key is made only when
    its first record is appended. *)
Theorem parse_no_empty_entry (self : WhatsAppParser) (text d : str)
    (recs : list record) :
  In (d, recs) (snd (parse self text)) -> recs <> [].
Proof.
  intros H. rewrite parse_returns in H.
  pose proof (parse_loop_nonempty (finditer text) [] (Forall_nil _)) as Hall.
  rewrite Forall_forall in Hall. exact (Hall _ H).
Qed.

Lemma parse_no_empty_entry_witness :
  [(txt "10:00", txt "x"); (txt "12:00", txt "z")] <> [].
Proof.
  apply (parse_no_empty_entry (__init__ None) three_dates_text
           (txt "02/01/2024")).
  vm_compute. left. reflexivity.
Defined.

Lemma dict_get_in (agrupado : dict) (d : str) (recs : list record) :
  NoDup (keys agrupado) -> In (d, recs) agrupado ->
  dict_get agrupado d = recs.
Proof.
  induction agrupado as [|[k v] rest IH]; [intros _ []|].
  cbn [keys map fst dict_get]. intros Hnd Hin.
  apply NoDup_cons_iff in Hnd. destruct Hnd as [Hk Hrest].
  destruct Hin as [[= -> ->]|Hin]; [now rewrite str_eqb_refl|].
  destruct (str_eqb k d) eqn:E; [|now apply IH].
  apply str_eqb_eq in E. subst k. destruct Hk.
  apply (in_map fst) in Hin. exact Hin.
Qed.

(** X5: the list stored under a date holds the records of all the matches
    with that date, and of no other, in the order of the text; equal records
    are kept as often as they occur. *)
Theorem parse_entry_records (self : WhatsAppParser) (text d : str)
    (recs : list record) :
  In (d, recs) (snd (parse self text)) ->
  recs = map (fun m => (group m "hora", strip (group m "mensagem")))
           (filter (fun m => str_eqb (group m "data") d) (finditer text)).
Proof.
  intros H. rewrite parse_returns in H.
  assert (Hnd : NoDup (keys (parse_loop (finditer text) []))).
  { rewrite parse_loop_keys. apply fold_see_NoDup. constructor. }
  rewrite <- (dict_get_in _ _ _ Hnd H). now rewrite parse_loop_get.
Qed.

Lemma parse_entry_records_witness :
  [(txt "10:00", txt "x"); (txt "12:00", txt "z")] =
  map (fun m => (group m "hora", strip (group m "mensagem")))
    (filter (fun m => str_eqb (group m "data") (txt "02/01/2024"))
       (finditer three_dates_text)).
Proof.
  apply (parse_entry_records (__init__ None) three_dates_text).
  vm_compute. left. reflexivity.
Defined.


(** ** The stored bodies *)

Lemma lstrip_snoc_nonspace (s : str) (c : ascii) :
  isspace c = false -> lstrip (s ++ [c]) = lstrip s ++ [c].
Proof.
  intros Hc. induction s as [|x s IH]; simpl.
  - now rewrite Hc.
  - destruct (isspace x); [exact IH|reflexivity].
Qed.

Lemma rstrip_cons_nonspace (c : ascii) (s : str) :
  isspace c = false -> rstrip (c :: s) = c :: rstrip s.
Proof.
  intros Hc. unfold rstrip. simpl.
  rewrite (lstrip_snoc_nonspace _ _ Hc), rev_app_distr. reflexivity.
Qed.

Lemma rstrip_idem (s : str) : rstrip (rstrip s) = rstrip s.
Proof. unfold rstrip. now rewrite rev_involutive, lstrip_idem. Qed.

Lemma lstrip_head (s : str) :
  lstrip s = [] \/ exists c s', lstrip s = c :: s' /\ isspace c = false.
Proof.
  induction s as [|c s IH]; [now left|]. simpl.
  destruct (isspace c) eqn:E; [exact IH|]. right. eauto.
Qed.

(** Stripping twice is stripping once. *)
Lemma strip_idem (s : str) : strip (strip s) = strip s.
Proof.
  unfold strip. destruct (lstrip_head s) as [->|(c & s' & -> & Hc)].
  - reflexivity.
  - rewrite (rstrip_cons_nonspace _ _ Hc). cbn [lstrip]. rewrite Hc.
    rewrite <- (rstrip_cons_nonspace _ _ Hc). apply rstrip_idem.
Qed.

Lemma body_split_no_marker (s : str) :
  markers_within (fst (body_split s)) (snd (body_split s)) = 0%nat.
Proof.
  induction s as [|c s IH]; rewrite body_split_eq.
  - now destruct (stop_here []).
  - destruct (stop_here (c :: s)) eqn:E; [reflexivity|].
    pose proof (body_split_app s) as Happ.
    destruct (body_split s) as [b r]. cbn [fst snd] in *.
    cbn [markers_within app]. rewrite <- Happ, IH.
    unfold stop_here in E. apply orb_false_elim in E. destruct E as [-> _].
    reflexivity.
Qed.

(** No marker starts in the captured body of a match. *)
Lemma match_here_body_no_marker (s : str) (m : env) (r : str) :
  match_here s = Some (m, r) ->
  markers_within (group m "mensagem") r = 0%nat.
Proof.
  rewrite match_here_scan. unfold scan_here.
  destruct (has_shape marker_shape s) as [s1|]; [|discriminate].
  destruct (split_author s1) as [s3|]; [|discriminate].
  pose proof (body_split_no_marker (lstrip s3)) as H.
  destruct (body_split (lstrip s3)) as [b r']. intros [= <- <-]. exact H.
Qed.

Lemma occurs_in_no_marker (x s rest : str) :
  occurs_in x s -> markers_within s rest = 0%nat -> count_markers x = 0%nat.
Proof.
  intros (u & v & ->) H. rewrite !markers_within_app in H.
  pose proof (markers_within_nil_le x (v ++ rest)). unfold count_markers. lia.
Qed.

(** A record of the result is the record of one of the matches. *)
Lemma parse_record_match (self : WhatsAppParser) (text d : str)
    (recs : list record) (h b : str) :
  In (d, recs) (snd (parse self text)) -> In (h, b) recs ->
  exists pre post m r,
    text = pre ++ post /\ match_here post = Some (m, r)
    /\ d = group m "data" /\ h = group m "hora"
    /\ b = strip (group m "mensagem").
Proof.
  intros H Hx. rewrite parse_returns in H.
  destruct (parse_loop_in _ _ _ _ _ H Hx) as [(v' & [] & _)|(m & Hm & -> & E)].
  injection E as -> ->. apply finditer_from_in in Hm.
  destruct Hm as (pre & post & r & Htext & Hm). exists pre, post, m, r. auto.
Qed.

(** A stripped text does not start with whitespace. *)
Lemma strip_first (s : str) (c : ascii) (rest : str) :
  strip s = c :: rest -> isspace c = false.
Proof.
  unfold strip. destruct (lstrip_head s) as [->|(x & s' & -> & Hx)].
  - discriminate.
  - rewrite (rstrip_cons_nonspace _ _ Hx). now intros [= <- _].
Qed.

Lemma rstrip_last (s front : str) (c : ascii) :
  rstrip s = front ++ [c] -> isspace c = false.
Proof.
  unfold rstrip. destruct (lstrip_head (rev s)) as [->|(x & y & -> & Hx)].
  - destruct front; discriminate.
  - cbn [rev]. intros H. apply app_inj_tail in H. now destruct H as [_ <-].
Qed.

(** A stripped text does not end with whitespace. *)
Lemma strip_last (s front : str) (c : ascii) :
  strip s = front ++ [c] -> isspace c = false.
Proof. unfold strip. apply rstrip_last. Qed.

(** X6: every stored body is stripped: its first character and its last
    character are no whitespace, and stripping it again changes nothing. *)
Theorem parse_body_stripped (self : WhatsAppParser) (text d : str)
    (recs : list record) (h b : str) :
  In (d, recs) (snd (parse self text)) -> In (h, b) recs ->
  (forall c rest, b = c :: rest -> isspace c = false)
  /\ (forall front c, b = front ++ [c] -> isspace c = false)
  /\ strip b = b.
Proof.
  intros H Hx.
  destruct (parse_record_match _ _ _ _ _ _ H Hx)
    as (_ & _ & m & _ & _ & _ & _ & _ & ->).
  split; [|split].
  - intros c rest E. exact (strip_first _ _ _ E).
  - intros front c E. exact (strip_last _ _ _ E).
  - apply strip_idem.
Qed.

Lemma parse_body_stripped_witness :
  (forall c rest,
      txt "line1" ++ LF :: txt "line2" = c :: rest -> isspace c = false)
  /\ (forall front c,
         txt "line1" ++ LF :: txt "line2" = front ++ [c] ->
         isspace c = false)
  /\ strip (txt "line1" ++ LF :: txt "line2") =
     txt "line1" ++ LF :: txt "line2".
Proof.
  apply (parse_body_stripped (__init__ None) multiline_text (txt "01/01/2024")
           [(txt "09:00", txt "line1" ++ LF :: txt "line2");
            (txt "09:05", txt "next")]
           (txt "09:00")).
  - vm_compute. left. reflexivity.
  - left. reflexivity.
Defined.

(** X7: no stored body holds a well-formed marker: the text is cut at every
    well-formed marker that follows a message. *)
Theorem parse_body_no_marker (self : WhatsAppParser) (text d : str)
    (recs : list record) (h b : str) :
  In (d, recs) (snd (parse self text)) -> In (h, b) recs ->
  count_markers b = 0%nat.
Proof.
  intros H Hx.
  destruct (parse_record_match _ _ _ _ _ _ H Hx)
    as (_ & post & m & r & _ & Hm & _ & _ & ->).
  apply (occurs_in_no_marker _ (group m "mensagem") r).
  - apply strip_occurs.
  - exact (match_here_body_no_marker _ _ _ Hm).
Qed.

Lemma parse_body_no_marker_witness :
  count_markers (txt "hi [1:00, 02/02/2024] B: yo") = 0%nat.
Proof.
  apply (parse_body_no_marker (__init__ None) malformed_text
           (txt "02/02/2024")
           [(txt "10:00", txt "hi [1:00, 02/02/2024] B: yo")]
           (txt "10:00")).
  - vm_compute. left. reflexivity.
  - left. reflexivity.
Defined.

(** ** Colons *)

Lemma colons_app (a b : str) : colons (a ++ b) = (colons a + colons b)%nat.
Proof. apply count_occ_app. Qed.

Lemma colons_cons_le (c : ascii) (s : str) : colons s <= colons (c :: s).
Proof. unfold colons. simpl. destruct (ascii_dec c ":"); lia. Qed.

Lemma after_colon_colons (s r : str) :
  after_colon s = Some r -> 1 <= colons s.
Proof.
  revert r. induction s as [|c s IH]; intros r; simpl; [discriminate|].
  destruct (notcolon c) eqn:E.
  - intros H. specialize (IH _ H). pose proof (colons_cons_le c s). lia.
  - intros _. unfold notcolon in E.
    destruct (Ascii.eqb c ":") eqn:Ec; [|discriminate].
    apply Ascii.eqb_eq in Ec. subst c. unfold colons. simpl.
    destruct (ascii_dec ":" ":"); [lia|congruence].
Qed.

Ltac shape_fails H :=
  cbn in H;
  repeat match type of H with
         | context [if ?b then _ else _] => destruct b
         end;
  discriminate H.

Lemma is_hora_colons (h : str) : is_hora h = true -> colons h = 1%nat.
Proof.
  unfold is_hora, exactly. intros H.
  do 5 (destruct h as [|? h]; [shape_fails H|]).
  destruct h; [|shape_fails H].
  cbn in H.
  repeat match type of H with
         | context [if ?b then _ else _] =>
             destruct b eqn:?; [|discriminate H]
         end.
  repeat match goal with
         | E : is_char _ _ = true |- _ =>
             unfold is_char in E; apply Ascii.eqb_eq in E; subst
         end.
  unfold colons. cbn [count_occ].
  repeat match goal with
         | E : isdigit ?c = true |- context [ascii_dec ?c ":"] =>
             destruct (ascii_dec c ":");
             [subst; vm_compute in E; discriminate E|]
         end.
  destruct (ascii_dec ":" ":"); [reflexivity|congruence].
Qed.

(** A match needs two colons: the one of the time and the one after the
    author. *)
Lemma match_here_colons (s : str) (m : env) (r : str) :
  match_here s = Some (m, r) -> 2 <= colons s.
Proof.
  rewrite match_here_scan. unfold scan_here.
  destruct (has_shape marker_shape s) as [s1|] eqn:H1; [|discriminate].
  destruct (split_author s1) as [s3|] eqn:H2; [|discriminate]. intros _.
  destruct (has_shape_marker_inv _ _ H1) as (Hs & Hh & _).
  cbv zeta in Hs, Hh.
  remember (firstn 5 (skipn 1 s)) as h eqn:Eh.
  remember (firstn 10 (skipn 8 s)) as d eqn:Ed. clear Eh Ed.
  subst s. unfold marker.
  change ("[" :: h ++ "," :: " " :: d ++ ["]"])
    with (["["] ++ h ++ "," :: " " :: d ++ ["]"]).
  rewrite <- !app_assoc, !colons_app, (is_hora_colons _ Hh).
  assert (1 <= colons s1); [|lia].
  unfold split_author in H2. destruct s1 as [|c s1]; [discriminate|].
  destruct (notcolon c); [|discriminate].
  apply after_colon_colons in H2. pose proof (colons_cons_le c s1). lia.
Qed.

Lemma search_few_colons (s : str) : colons s < 2 -> search s = None.
Proof.
  induction s as [|c s IH]; intros H; rewrite search_eq.
  - destruct (match_here []) as [[m r]|] eqn:E; [|reflexivity].
    apply match_here_colons in E. lia.
  - destruct (match_here (c :: s)) as [[m r]|] eqn:E.
    + apply match_here_colons in E. lia.
    + apply IH. pose proof (colons_cons_le c s). lia.
Qed.

(** X8: a message needs two colons, the one of its time and the one after
    its author: a text with fewer than two colons parses to the empty dict,
    whatever markers it holds. *)
Theorem parse_needs_two_colons (self : WhatsAppParser) (text : str) :
  colons text < 2 -> snd (parse self text) = [].
Proof.
  intros H. rewrite parse_returns, finditer_unfold.
  now rewrite (search_few_colons _ H).
Qed.

Lemma parse_needs_two_colons_witness :
  snd (parse (__init__ None) no_author_text) = [].
Proof.
  apply (parse_needs_two_colons (__init__ None) no_author_text).
  vm_compute. lia.
Defined.

(** ** A marker without author *)

Lemma exactly_avoids (c : ascii) (sh : shape) (x : str) :
  forallb (fun p : ascii -> bool => negb (p c)) sh = true ->
  exactly sh x = true ->
  forallb (fun y => negb (Ascii.eqb y c)) x = true.
Proof.
  unfold exactly. revert x. induction sh as [|p sh IH]; intros x; simpl.
  - destruct x; [reflexivity|discriminate].
  - intros H. apply andb_prop in H. destruct H as [Hp Hsh].
    destruct x as [|y x]; [discriminate|].
    destruct (p y) eqn:E; [|discriminate].
    intros Hx. simpl. rewrite (IH _ Hsh Hx), andb_true_r.
    destruct (Ascii.eqb y c) eqn:Ec; [|reflexivity].
    apply Ascii.eqb_eq in Ec. subst y. rewrite E in Hp. discriminate.
Qed.

Lemma marker_here_bracket (c : ascii) (s : str) :
  marker_here (c :: s) = true -> Ascii.eqb c "[" = true.
Proof.
  intros H. destruct (marker_here_nonempty _ H) as [r [= -> _]]. reflexivity.
Qed.

(** No marker starts in a span without an opening bracket. *)
Lemma no_bracket_no_marker (span rest : str) :
  forallb (fun y => negb (Ascii.eqb y "[")) span = true ->
  markers_within span rest = 0%nat.
Proof.
  induction span as [|c span IH]; [reflexivity|]. cbn [forallb markers_within].
  intros H. apply andb_prop in H. destruct H as [Hc Hspan].
  rewrite (IH Hspan).
  destruct (marker_here ((c :: span) ++ rest)) eqn:E; [|reflexivity].
  apply marker_here_bracket in E. rewrite E in Hc. discriminate.
Qed.

(** X9: a marker with the colon right after it is no message, the author
    may not be empty: the scan passes over it and goes on with the text
    after that colon. *)
Theorem parse_empty_author (self : WhatsAppParser) (h d rest : str) :
  is_hora h = true -> is_data d = true ->
  snd (parse self (marker h d ++ ":" :: rest)) = snd (parse self rest).
Proof.
  intros Hh Hd. rewrite !parse_returns. f_equal.
  rewrite (finditer_unfold (marker h d ++ ":" :: rest)), search_eq.
  rewrite match_here_scan. unfold scan_here.
  rewrite (has_shape_marker _ _ _ Hh Hd). cbn [split_author].
  change (notcolon ":") with false. cbv iota.
  unfold marker. cbn [app].
  replace ((h ++ "," :: " " :: d ++ ["]"]) ++ ":" :: rest)
    with ((h ++ "," :: " " :: d ++ "]" :: [":"]) ++ rest)
    by (repeat (rewrite <- app_assoc; cbn [app]); reflexivity).
  rewrite search_skip; [now rewrite <- finditer_unfold|].
  apply no_bracket_no_marker.
  rewrite forallb_app. cbn [forallb].
  rewrite forallb_app. cbn [forallb].
  rewrite (exactly_avoids "[" hora_shape h eq_refl Hh).
  rewrite (exactly_avoids "[" data_shape d eq_refl Hd).
  reflexivity.
Qed.

Lemma parse_empty_author_witness :
  snd (parse (__init__ None)
         (marker (txt "10:00") (txt "02/02/2024") ++ ":" :: one_message_text))
  = snd (parse (__init__ None) one_message_text).
Proof.
  apply (parse_empty_author (__init__ None) (txt "10:00") (txt "02/02/2024")
           one_message_text); reflexivity.
Defined.

(** ** The matches in the text *)

Lemma finditer_from_in_order (fuel : nat) (s : str) :
  in_order (finditer_from fuel s) s.
Proof.
  revert s. induction fuel as [|fuel IH]; intros s; cbn [finditer_from].
  - exact I.
  - destruct (search s) as [[m r]|] eqn:E; [|exact I].
    destruct (search_found _ _ _ E) as (pre & post & used & -> & _ & Hm).
    destruct (match_here_layout _ _ _ Hm) as (gap & -> & _).
    cbn [in_order]. exists pre, gap, r. split; [reflexivity|apply IH].
Qed.

(** X10: the matches do not overlap and are in the order of the text: each
    one, a marker followed by its author and its captured body, lies in the
    text that the match before it left. *)
Theorem finditer_in_order (text : str) : in_order (finditer text) text.
Proof. apply finditer_from_in_order. Qed.

(** * Further properties of the renderer *)

(** X11: the rendered text of a parsed transcript that is not empty, cut at
    its newlines, is line for line what the loops of [to_markdown] put into
    [md_lines]: no date, time or body line holds a newline. *)
Theorem to_markdown_lines (self : WhatsAppParser) :
  well_formed (messages self) = true -> messages self <> [] ->
  split_lf (to_markdown self) = md_lines (messages self).
Proof.
  intros Hwf Hne. unfold to_markdown.
  destruct (messages self) as [|[data recs] msgs] eqn:E; [congruence|].
  apply split_lf_join; [discriminate|now apply md_lines_no_lf].
Qed.

Lemma to_markdown_lines_witness :
  split_lf (to_markdown three_dates_parser) =
  md_lines (messages three_dates_parser).
Proof.
  apply (to_markdown_lines three_dates_parser).
  - reflexivity.
  - discriminate.
Defined.

Lemma join_cons_cons (sep l x : str) (rest : list str) :
  join sep (l :: x :: rest) = l ++ sep ++ join sep (x :: rest).
Proof. reflexivity. Qed.

Lemma join_snoc_empty (sep : str) (lines : list str) :
  lines <> [] -> join sep (lines ++ [[]]) = join sep lines ++ sep.
Proof.
  induction lines as [|l rest IH]; [congruence|]. intros _.
  destruct rest as [|x rest].
  - cbn. now rewrite app_nil_r.
  - change ((l :: x :: rest) ++ [[]]) with (l :: (x :: rest) ++ [[]]).
    change ((x :: rest) ++ [[]]) with (x :: rest ++ [[]]) at 1.
    rewrite !join_cons_cons.
    change (x :: rest ++ [[]]) with ((x :: rest) ++ [[]]).
    rewrite IH by discriminate. now rewrite <- !app_assoc.
Qed.

(** The lines of a dict that is not empty: the header of the first date
    first, an empty line last. *)
Lemma md_lines_frame (data : str) (recs : list record) (msgs : dict) :
  exists mid,
    md_lines ((data, recs) :: msgs) = (txt "## " ++ data) :: mid ++ [[]].
Proof.
  revert data recs. induction msgs as [|[d' r'] msgs IH]; intros data recs.
  - exists (flat_map record_lines recs). unfold md_lines.
    cbn [flat_map date_lines]. now rewrite app_nil_r.
  - destruct (IH d' r') as [mid Hmid].
    exists (flat_map record_lines recs ++ [[]] ++ (txt "## " ++ d') :: mid).
    change (md_lines ((data, recs) :: (d', r') :: msgs))
      with (date_lines (data, recs) ++ md_lines ((d', r') :: msgs)).
    rewrite Hmid. cbn [date_lines app]. now rewrite <- !app_assoc.
Qed.

(** X12: the rendered text is empty for an empty dict only; otherwise it
    starts with the header of the first date and ends with a newline. *)
Theorem to_markdown_frame (self : WhatsAppParser) :
  match messages self with
  | [] => to_markdown self = []
  | (data, _) :: _ =>
      exists tail, to_markdown self = txt "## " ++ data ++ tail ++ [LF]
  end.
Proof.
  unfold to_markdown. destruct (messages self) as [|[data recs] msgs];
    [reflexivity|].
  destruct (md_lines_frame data recs msgs) as [mid ->].
  destruct mid as [|x mid].
  - exists []. reflexivity.
  - exists (LF :: join [LF] (x :: mid)).
    change ((x :: mid) ++ [[]]) with (x :: mid ++ [[]]).
    rewrite join_cons_cons.
    change (x :: mid ++ [[]]) with ((x :: mid) ++ [[]]).
    rewrite join_snoc_empty by discriminate.
    cbn [app]. now rewrite <- !app_assoc.
Qed.

(** ** Parsing and rendering together *)

(** X13: a parsed text renders to one time marker for each match and one
    date header for each date of the matches. *)
Theorem parse_to_markdown_counts (self : WhatsAppParser) (text : str) :
  count_time_markers (to_markdown (fst (parse self text))) =
  length (finditer text)
  /\ count_date_headers (to_markdown (fst (parse self text))) =
     length (first_seen (dates_of text)).
Proof.
  pose proof (parse_well_formed self text) as Hwf.
  unfold count_date_headers, count_time_markers, count_lines, to_markdown.
  cbn [parse fst messages] in *.
  assert (Hk : keys (parse_loop (finditer text) []) =
               first_seen (dates_of text)) by apply parse_loop_keys.
  assert (Ht : total_records (parse_loop (finditer text) []) =
               length (finditer text)) by apply parse_loop_total.
  destruct (parse_loop (finditer text) []) as [|entry msgs] eqn:E.
  - rewrite <- Hk, <- Ht. split; reflexivity.
  - rewrite split_lf_join;
      [|destruct entry; discriminate|now apply md_lines_no_lf].
    destruct (md_lines_count (entry :: msgs)) as [H1 H2].
    rewrite H1, H2, <- Hk, <- Ht. unfold keys. now rewrite length_map.
Qed.

Lemma has_shape_cut (c : ascii) (sh : shape) (t rest x : str) :
  forallb (fun p : ascii -> bool => negb (p c)) sh = true ->
  has_shape sh (t ++ c :: rest) = Some x ->
  exists y, has_shape sh t = Some y.
Proof.
  revert t. induction sh as [|p sh IH]; intros t H; simpl.
  - eauto.
  - simpl in H. apply andb_prop in H. destruct H as [Hp Hsh].
    destruct t as [|y t]; simpl.
    + destruct (p c); discriminate.
    + destruct (p y); [apply (IH _ Hsh)|discriminate].
Qed.

(** A marker does not reach over a newline. *)
Lemma marker_here_lf (t rest : str) :
  marker_here (t ++ LF :: rest) = true -> marker_here t = true.
Proof.
  unfold marker_here.
  destruct (has_shape marker_shape (t ++ LF :: rest)) as [x|] eqn:E;
    [|discriminate].
  intros _. destruct (has_shape_cut LF marker_shape t rest x eq_refl E)
    as [y ->].
  reflexivity.
Qed.

Lemma markers_within_lf (l rest : str) :
  count_markers l = 0%nat -> markers_within l (LF :: rest) = 0%nat.
Proof.
  unfold count_markers. induction l as [|c l IH]; [reflexivity|].
  intros H. apply markers_within_zero_cons in H. destruct H as [H1 H2].
  rewrite app_nil_r in H1. cbn [markers_within]. rewrite (IH H2).
  destruct (marker_here ((c :: l) ++ LF :: rest)) eqn:E; [|reflexivity].
  apply marker_here_lf in E. congruence.
Qed.

(** Lines without marker joined by newlines hold no marker. *)
Lemma join_no_marker (lines : list str) :
  Forall (fun l => count_markers l = 0%nat) lines ->
  count_markers (join [LF] lines) = 0%nat.
Proof.
  induction 1 as [|l rest Hl Hrest IH]; [reflexivity|].
  destruct rest as [|x rest]; [exact Hl|].
  rewrite join_cons_cons. cbn [app].
  rewrite count_markers_app, (markers_within_lf _ _ Hl).
  unfold count_markers in *. cbn [markers_within].
  rewrite IH. rewrite app_nil_r.
  destruct (marker_here (LF :: join [LF] (x :: rest))) eqn:E; [|reflexivity].
  apply marker_here_bracket in E. discriminate.
Qed.

Lemma splitlines_nil (s : str) : splitlines s = [] -> s = [].
Proof.
  destruct s as [|c s]; [reflexivity|]. cbn [splitlines].
  destruct (islinebreak c).
  - destruct s as [|x s]; [discriminate|].
    destruct (Ascii.eqb c CR && Ascii.eqb x LF); discriminate.
  - destruct (splitlines s); discriminate.
Qed.

(** The first line is the start of the text. *)
Lemma splitlines_first (s l0 : str) (ls : list str) :
  splitlines s = l0 :: ls -> exists v, s = l0 ++ v.
Proof.
  revert l0 ls. induction s as [|c s IH]; intros l0 ls; [discriminate|].
  cbn [splitlines]. destruct (islinebreak c).
  - destruct s as [|x s]; [intros [= <- _]; now exists [c]|].
    destruct (Ascii.eqb c CR && Ascii.eqb x LF); intros [= <- _];
      now exists (c :: x :: s).
  - destruct (splitlines s) as [|l1 ls1] eqn:E.
    + intros [= <- _]. apply splitlines_nil in E. subst s. now exists [].
    + intros [= <- _]. destruct (IH _ _ eq_refl) as [v ->]. now exists v.
Qed.

Lemma splitlines_occurs_upto (n : nat) (s l : str) :
  length s <= n -> In l (splitlines s) -> occurs_in l s.
Proof.
  revert s l. induction n as [|n IH]; intros s l Hn.
  - destruct s; [intros []|simpl in Hn; lia].
  - destruct s as [|c s]; [intros []|]. simpl in Hn.
    cbn [splitlines]. destruct (islinebreak c).
    + destruct s as [|x s].
      * intros [<-|[]]. exists [], [c]. reflexivity.
      * destruct (Ascii.eqb c CR && Ascii.eqb x LF).
        -- intros [<-|H]; [exists [], (c :: x :: s); reflexivity|].
           assert (Hs : length s <= n) by (simpl in Hn; lia).
           destruct (IH s l Hs H) as (u & v & ->).
           exists (c :: x :: u), v. reflexivity.
        -- intros [<-|H]; [exists [], (c :: x :: s); reflexivity|].
           assert (Hs : length (x :: s) <= n) by lia.
           destruct (IH (x :: s) l Hs H) as (u & v & E).
           exists (c :: u), v. simpl. now rewrite E.
    + assert (Hs : length s <= n) by lia.
      destruct (splitlines s) as [|l0 ls] eqn:E.
      * intros [<-|[]]. apply splitlines_nil in E. subst s.
        exists [], []. reflexivity.
      * intros [<-|H].
        -- destruct (splitlines_first _ _ _ E) as [v ->].
           exists [], v. reflexivity.
        -- assert (Hin : In l (splitlines s)) by (rewrite E; now right).
           destruct (IH s l Hs Hin) as (u & v & ->).
           exists (c :: u), v. reflexivity.
Qed.

(** Every line of [splitlines] is a part of the text. *)
Lemma splitlines_occurs (s l : str) : In l (splitlines s) -> occurs_in l s.
Proof. apply (splitlines_occurs_upto (length s)). lia. Qed.

Lemma count_markers_indent (l : str) :
  count_markers l = 0%nat -> count_markers (txt "  " ++ l) = 0%nat.
Proof.
  intros H. rewrite count_markers_app, H.
  now rewrite (no_bracket_no_marker (txt "  ") l eq_refl).
Qed.

Lemma no_bracket_count (l : str) :
  forallb (fun y => negb (Ascii.eqb y "[")) l = true ->
  count_markers l = 0%nat.
Proof. apply no_bracket_no_marker. Qed.

(** The lines of a record hold no marker when its body holds none. *)
Lemma record_lines_no_marker (r : record) :
  is_hora (fst r) = true -> count_markers (snd r) = 0%nat ->
  Forall (fun l => count_markers l = 0%nat) (record_lines r).
Proof.
  destruct r as [hora mensagem]. cbn [fst snd record_lines]. intros Hh Hb.
  constructor.
  - apply no_bracket_count. rewrite !forallb_app.
    now rewrite (exactly_avoids "[" hora_shape hora eq_refl Hh).
  - apply Forall_forall. intros l Hl. apply in_map_iff in Hl.
    destruct Hl as (piece & <- & Hpiece). apply count_markers_indent.
    apply (occurs_in_no_marker _ mensagem []); [|exact Hb].
    now apply splitlines_occurs.
Qed.

Lemma date_lines_no_marker (entry : str * list record) :
  is_data (fst entry) = true ->
  Forall (fun r : record => is_hora (fst r) = true
                            /\ count_markers (snd r) = 0%nat) (snd entry) ->
  Forall (fun l => count_markers l = 0%nat) (date_lines entry).
Proof.
  destruct entry as [data msgs]. cbn [fst snd date_lines]. intros Hd Hm.
  constructor.
  - apply no_bracket_count. rewrite forallb_app.
    now rewrite (exactly_avoids "[" data_shape data eq_refl Hd).
  - apply Forall_app. split; [|repeat constructor].
    induction Hm as [|r msgs [Hh Hb] Hm IH]; [constructor|].
    cbn [flat_map]. apply Forall_app. split; [|exact IH].
    now apply record_lines_no_marker.
Qed.

(** X14: what [to_markdown] makes of a parsed text holds no well-formed
    marker, so parsing it again gives the empty dict: an exported transcript
    cannot be loaded back. *)
Theorem parse_to_markdown_parse (self other : WhatsAppParser) (text : str) :
  count_markers (to_markdown (fst (parse self text))) = 0%nat
  /\ snd (parse other (to_markdown (fst (parse self text)))) = [].
Proof.
  assert (H0 : count_markers (to_markdown (fst (parse self text))) = 0%nat).
  { unfold to_markdown.
    destruct (messages (fst (parse self text))) as [|e0 ms0] eqn:E;
      [reflexivity|].
    rewrite <- E. clear E e0 ms0.
    apply join_no_marker. unfold md_lines.
    apply Forall_forall. intros l Hl. apply in_flat_map in Hl.
    destruct Hl as ([data recs] & Hentry & Hl).
    assert (Hlines : Forall (fun l => count_markers l = 0%nat)
                       (date_lines (data, recs))).
    { pose proof (parse_well_formed self text) as Hwf.
      unfold well_formed in Hwf. rewrite forallb_forall in Hwf.
      specialize (Hwf _ Hentry). cbn [fst snd] in Hwf.
      apply andb_prop in Hwf. destruct Hwf as [Hd Hrecs].
      rewrite forallb_forall in Hrecs.
      apply date_lines_no_marker; [exact Hd|]. cbn [snd].
      apply Forall_forall. intros [h b] Hr. split; [exact (Hrecs _ Hr)|].
      cbn [snd].
      destruct (parse_record_match self text data recs h b Hentry Hr)
        as (_ & post & m & r & _ & Hm & _ & _ & ->).
      apply (occurs_in_no_marker _ (group m "mensagem") r).
      - apply strip_occurs.
      - exact (match_here_body_no_marker _ _ _ Hm). }
    rewrite Forall_forall in Hlines. now apply Hlines. }
  split; [exact H0|].
  rewrite parse_returns, finditer_unfold. now rewrite (search_no_marker _ H0).
Qed.

(** X15: every date [parse] stores has the shape [DD/MM/YYYY] and every time
    the shape [HH:MM], ten and five characters; the digits are not checked
    any further. *)
Theorem parse_stores_shapes (self : WhatsAppParser) (text d : str)
    (recs : list record) (h b : str) :
  In (d, recs) (snd (parse self text)) -> In (h, b) recs ->
  is_data d = true /\ is_hora h = true
  /\ length d = 10%nat /\ length h = 5%nat.
Proof.
  intros H Hx.
  destruct (parse_record_match _ _ _ _ _ _ H Hx)
    as (_ & post & m & r & _ & Hm & -> & -> & _).
  destruct (match_here_layout _ _ _ Hm) as (_ & _ & Hh & Hd).
  repeat split; try assumption.
  - now apply exactly_length in Hd.
  - now apply exactly_length in Hh.
Qed.

Lemma parse_stores_shapes_witness :
  is_data (txt "01/01/2024") = true /\ is_hora (txt "09:05") = true
  /\ length (txt "01/01/2024") = 10%nat /\ length (txt "09:05") = 5%nat.
Proof.
  apply (parse_stores_shapes (__init__ None) multiline_text (txt "01/01/2024")
           [(txt "09:00", txt "line1" ++ LF :: txt "line2");
            (txt "09:05", txt "next")]
           (txt "09:05") (txt "next")).
  - vm_compute. left. reflexivity.
  - right. left. reflexivity.
Defined.

(** * The console *)

Lemma print_app (stdout x : str) : print stdout x = stdout ++ print [] x.
Proof. reflexivity. Qed.

Lemma print_record_app (stdout : str) (r : record) :
  print_record stdout r = stdout ++ print_record [] r.
Proof.
  destruct r as [hora mensagem]. unfold print_record, print.
  cbn [app]. repeat (rewrite <- app_assoc; cbn [app]). reflexivity.
Qed.

Lemma fold_print_record_app (recs : list record) (stdout : str) :
  fold_left print_record recs stdout =
  stdout ++ fold_left print_record recs [].
Proof.
  revert stdout. induction recs as [|r recs IH]; intros stdout; cbn [fold_left].
  - now rewrite app_nil_r.
  - rewrite IH, (IH (print_record [] r)), print_record_app.
    now rewrite <- app_assoc.
Qed.

Lemma print_date_app (stdout : str) (entry : str * list record) :
  print_date stdout entry = stdout ++ print_date [] entry.
Proof.
  destruct entry as [data msgs]. unfold print_date.
  rewrite fold_print_record_app, print_app.
  rewrite (fold_print_record_app msgs (print [] _)).
  now rewrite <- app_assoc.
Qed.

Lemma fold_print_date_app (msgs : dict) (stdout : str) :
  fold_left print_date msgs stdout = stdout ++ fold_left print_date msgs [].
Proof.
  revert stdout. induction msgs as [|e msgs IH]; intros stdout; cbn [fold_left].
  - now rewrite app_nil_r.
  - rewrite IH, (IH (print_date [] e)), print_date_app.
    now rewrite <- app_assoc.
Qed.

(** X16: [pretty_print] only adds to the console, and what it adds is the
    notice [Nenhuma mensagem para exibir.] exactly when no message is
    stored. *)
Theorem pretty_print_notice (self : WhatsAppParser) (stdout : str) :
  (exists added, pretty_print self stdout = stdout ++ added)
  /\ (pretty_print self stdout =
      stdout ++ txt "Nenhuma mensagem para exibir." ++ [LF]
      <-> messages self = []).
Proof.
  unfold pretty_print.
  destruct (messages self) as [|[data recs] msgs].
  - split; [eexists; reflexivity|]. split; reflexivity.
  - rewrite fold_print_date_app. split; [eexists; reflexivity|].
    split; [|discriminate]. intros H. apply app_inv_head in H.
    cbn [fold_left] in H.
    rewrite fold_print_date_app, print_date_app in H.
    unfold print_date in H. rewrite fold_print_record_app in H.
    discriminate H.
Qed.

Lemma fold_print_record_in (recs : list record) (h b : str) :
  In (h, b) recs ->
  exists before after,
    fold_left print_record recs [] =
    before ++ ("[" :: h ++ "]" :: LF :: b ++ [LF; LF]) ++ after.
Proof.
  induction recs as [|r recs IH]; [intros []|].
  cbn [fold_left]. rewrite fold_print_record_app. intros [->|H].
  - exists [], (fold_left print_record recs []).
    unfold print_record, print. cbn [app].
    repeat (rewrite <- app_assoc; cbn [app]). reflexivity.
  - destruct (IH H) as (x & y & ->).
    exists (print_record [] r ++ x), y. now rewrite <- !app_assoc.
Qed.

Lemma fold_print_date_in (msgs : dict) (d : str) (recs : list record)
    (h b : str) :
  In (d, recs) msgs -> In (h, b) recs ->
  exists before after,
    fold_left print_date msgs [] =
    before ++ ("[" :: h ++ "]" :: LF :: b ++ [LF; LF]) ++ after.
Proof.
  intros Hd Hr. induction msgs as [|e msgs IH]; [destruct Hd|].
  cbn [fold_left]. rewrite fold_print_date_app. destruct Hd as [->|Hd].
  - destruct (fold_print_record_in _ _ _ Hr) as (x & y & E).
    unfold print_date. rewrite fold_print_record_app, E.
    exists (print [] (txt "=== " ++ d ++ txt " ===") ++ x),
           (y ++ fold_left print_date msgs []).
    now rewrite <- !app_assoc.
  - destruct (IH Hd) as (x & y & ->).
    exists (print_date [] e ++ x), y. now rewrite <- !app_assoc.
Qed.

(** X17: [pretty_print] writes every stored message out in full: after what
    the console held, the line [[hora]], then the body as it is stored, with
    its own line breaks, and an empty line. *)
Theorem pretty_print_verbatim (self : WhatsAppParser) (stdout d : str)
    (recs : list record) (h b : str) :
  In (d, recs) (messages self) -> In (h, b) recs ->
  exists before after,
    pretty_print self stdout =
    stdout ++ before ++ ("[" :: h ++ "]" :: LF :: b ++ [LF; LF]) ++ after.
Proof.
  intros Hd Hr. unfold pretty_print.
  destruct (fold_print_date_in _ _ _ _ _ Hd Hr) as (x & y & E).
  destruct (messages self) as [|e msgs]; [destruct Hd|].
  rewrite fold_print_date_app, E. now exists x, y.
Qed.

Lemma pretty_print_verbatim_witness :
  exists before after,
    pretty_print (fst (parse (__init__ None) multiline_text)) [] =
    [] ++ before
       ++ ("[" :: txt "09:00" ++ "]" :: LF
             :: (txt "line1" ++ LF :: txt "line2") ++ [LF; LF])
       ++ after.
Proof.
  apply (pretty_print_verbatim (fst (parse (__init__ None) multiline_text)) []
           (txt "01/01/2024")
           [(txt "09:00", txt "line1" ++ LF :: txt "line2");
            (txt "09:05", txt "next")]).
  - vm_compute. left. reflexivity.
  - left. reflexivity.
Defined.

(** * A newline at the end of the text *)

Lemma parse_loop_entries (ms1 ms2 : list env) (agrupado : dict) :
  map entry_of ms1 = map entry_of ms2 ->
  parse_loop ms1 agrupado = parse_loop ms2 agrupado.
Proof.
  revert ms2 agrupado. induction ms1 as [|m1 ms1 IH]; intros ms2 agrupado.
  - destruct ms2; [reflexivity|discriminate].
  - destruct ms2 as [|m2 ms2]; [discriminate|]. cbn [map].
    intros [= Hd Hh Hb Hrest]. rewrite !parse_loop_cons. unfold parse_step.
    rewrite Hd, Hh, Hb. now apply IH.
Qed.

Lemma has_shape_lf (t : str) :
  has_shape marker_shape (t ++ [LF]) =
  match has_shape marker_shape t with
  | Some s1 => Some (s1 ++ [LF])
  | None => None
  end.
Proof.
  destruct (has_shape marker_shape t) as [s1|] eqn:E.
  - now apply has_shape_app_rest.
  - destruct (has_shape marker_shape (t ++ [LF])) as [x|] eqn:E2;
      [|reflexivity].
    destruct (has_shape_cut LF marker_shape t [] x eq_refl E2) as [y Hy].
    congruence.
Qed.

Lemma after_colon_lf (s : str) :
  after_colon (s ++ [LF]) =
  match after_colon s with
  | Some r => Some (r ++ [LF])
  | None => None
  end.
Proof.
  induction s as [|c s IH]; [reflexivity|]. simpl.
  destruct (notcolon c); [exact IH|reflexivity].
Qed.

Lemma split_author_lf (s : str) :
  split_author (s ++ [LF]) =
  match split_author s with
  | Some r => Some (r ++ [LF])
  | None => None
  end.
Proof.
  destruct s as [|c s]; [reflexivity|]. simpl.
  destruct (notcolon c); [apply after_colon_lf|reflexivity].
Qed.

(** The body before a last newline: the same body up to a marker, the whole
    rest of the text otherwise. *)
Lemma body_split_lf (x : str) :
  (marker_here (snd (body_split x)) = true
   /\ body_split (x ++ [LF]) =
      (fst (body_split x), snd (body_split x) ++ [LF]))
  \/ ((snd (body_split x) = [] \/ snd (body_split x) = [LF])
      /\ body_split (x ++ [LF]) = (x, [LF])).
Proof.
  induction x as [|c x IH].
  - right. split; [now left|reflexivity].
  - rewrite (body_split_eq (c :: x)).
    rewrite (body_split_eq ((c :: x) ++ [LF])). unfold stop_here.
    destruct (marker_here (c :: x)) eqn:Em.
    + left. cbn [orb fst snd]. split; [exact Em|].
      now rewrite (marker_here_app _ [LF] Em).
    + assert (Em' : marker_here ((c :: x) ++ [LF]) = false).
      { destruct (marker_here ((c :: x) ++ [LF])) eqn:E; [|reflexivity].
        apply marker_here_lf in E. congruence. }
      rewrite Em'. cbn [orb].
      assert (Hend : at_end ((c :: x) ++ [LF]) = false).
      { cbn [app at_end]. now destruct x. }
      rewrite Hend.
      destruct (at_end (c :: x)) eqn:Ee.
      * right. cbn [fst snd]. cbn [at_end] in Ee.
        destruct x as [|y x]; [|discriminate]. apply Ascii.eqb_eq in Ee.
        subst c. split; [now right|reflexivity].
      * cbn [app]. destruct IH as [[H1 H2]|[H1 H2]]; rewrite H2;
          destruct (body_split x) as [b r]; cbn [fst snd] in *.
        -- left. auto.
        -- right. auto.
Qed.

(** The match at a position of the text with one more newline at its end:
    none where there was none, and otherwise a match of the same date, time
    and stripped body, that leaves the same text and the newline, or, when
    it was the last one, no match behind it. *)
Lemma match_here_lf (t : str) :
  match match_here t with
  | None => match_here (t ++ [LF]) = None
  | Some (m, r) =>
      exists m' r',
        match_here (t ++ [LF]) = Some (m', r')
        /\ entry_of m' = entry_of m
        /\ (r' = r ++ [LF]
            \/ ((r = [] \/ r = [LF]) /\ (r' = [] \/ r' = [LF])))
  end.
Proof.
  rewrite !match_here_scan. unfold scan_here. rewrite has_shape_lf.
  destruct (has_shape marker_shape t) as [s1|] eqn:H1; [|reflexivity].
  rewrite split_author_lf.
  destruct (split_author s1) as [s3|] eqn:H2; [|reflexivity].
  destruct (has_shape_marker_inv _ _ H1) as (Ht & Hh & Hd).
  cbv zeta in Ht, Hh, Hd.
  remember (firstn 5 (skipn 1 t)) as h eqn:Eh.
  remember (firstn 10 (skipn 8 t)) as d eqn:Ed.
  assert (Eh' : firstn 5 (skipn 1 (t ++ [LF])) = h).
  { rewrite Ht, <- app_assoc. now apply marker_hora. }
  assert (Ed' : firstn 10 (skipn 8 (t ++ [LF])) = d).
  { rewrite Ht, <- app_assoc. now apply marker_data. }
  rewrite Eh', Ed'. clear Eh Ed Eh' Ed' Ht.
  rewrite (lstrip_snoc s3 LF LF_isspace).
  destruct (lstrip s3) as [|c x] eqn:El.
  - cbn. exists [("mensagem"%string, []); ("data"%string, d);
                 ("hora"%string, h)], [].
    split; [reflexivity|]. split; [reflexivity|]. right. auto.
  - destruct (body_split_lf (c :: x)) as [[Hm Hb]|[Hr Hb]]; rewrite Hb;
      destruct (body_split (c :: x)) as [b r] eqn:Eb; cbn [fst snd] in *.
    + eexists _, _. split; [reflexivity|]. split; [reflexivity|]. now left.
    + eexists _, _. split; [reflexivity|]. split.
      * unfold entry_of. cbn [group String.eqb Ascii.eqb Bool.eqb].
        do 2 f_equal. pose proof (body_split_app (c :: x)) as Happ.
        rewrite Eb in Happ. cbn [fst snd] in Happ. rewrite Happ.
        destruct Hr as [-> | ->]; [now rewrite app_nil_r|].
        apply (strip_snoc _ _ LF_isspace).
      * right. auto.
Qed.

Lemma search_lf (s : str) :
  match search s with
  | None => search (s ++ [LF]) = None
  | Some (m, r) =>
      exists m' r',
        search (s ++ [LF]) = Some (m', r')
        /\ entry_of m' = entry_of m
        /\ (r' = r ++ [LF]
            \/ ((r = [] \/ r = [LF]) /\ (r' = [] \/ r' = [LF])))
  end.
Proof.
  induction s as [|c s IH].
  - reflexivity.
  - rewrite (search_eq (c :: s)), (search_eq ((c :: s) ++ [LF])).
    pose proof (match_here_lf (c :: s)) as H.
    destruct (match_here (c :: s)) as [[m r]|].
    + destruct H as (m' & r' & -> & H). exists m', r'. auto.
    + rewrite H. exact IH.
Qed.

Lemma finditer_lf_upto (n : nat) (s : str) :
  length s <= n ->
  map entry_of (finditer (s ++ [LF])) = map entry_of (finditer s).
Proof.
  revert s. induction n as [|n IH]; intros s Hn;
    rewrite (finditer_unfold (s ++ [LF])), (finditer_unfold s);
    pose proof (search_lf s) as H;
    destruct (search s) as [[m r]|] eqn:E; try (now rewrite H).
  - apply search_shorter in E. lia.
  - destruct H as (m' & r' & -> & Hentry & Hr). cbn [map].
    rewrite Hentry. f_equal. apply search_shorter in E.
    destruct Hr as [-> | [Hr Hr']].
    + apply IH. lia.
    + now rewrite (finditer_end _ Hr), (finditer_end _ Hr').
Qed.

(** X18: a newline at the very end of the text changes nothing: the [$] of
    the pattern ends the last body before it, and [strip] removes it when it
    is captured. *)
Theorem parse_trailing_newline (self : WhatsAppParser) (text : str) :
  snd (parse self (text ++ [LF])) = snd (parse self text).
Proof.
  rewrite !parse_returns. apply parse_loop_entries.
  apply (finditer_lf_upto (length text)). lia.
Qed.

(** * Where each record comes from, and in which order *)

Lemma after_colon_inv (s r : str) :
  after_colon s = Some r ->
  exists a, s = a ++ ":" :: r /\ forallb notcolon a = true.
Proof.
  revert r. induction s as [|c s IH]; intros r; simpl; [discriminate|].
  destruct (notcolon c) eqn:E.
  - intros H. destruct (IH _ H) as (a & -> & Ha). exists (c :: a).
    simpl. now rewrite E, Ha.
  - intros [= <-]. unfold notcolon in E.
    destruct (Ascii.eqb c ":") eqn:Ec; [|discriminate].
    apply Ascii.eqb_eq in Ec. subst c. now exists [].
Qed.

(** The author: the text before the first colon, which is not empty. *)
Lemma split_author_inv (s r : str) :
  split_author s = Some r ->
  exists a, s = a ++ ":" :: r /\ a <> [] /\ forallb notcolon a = true.
Proof.
  unfold split_author. destruct s as [|c s]; [discriminate|].
  destruct (notcolon c) eqn:E; [|discriminate]. intros H.
  destruct (after_colon_inv _ _ H) as (a & -> & Ha). exists (c :: a).
  split; [reflexivity|]. split; [discriminate|]. simpl. now rewrite E, Ha.
Qed.

Lemma lstrip_spaces (s : str) :
  exists ws, s = ws ++ lstrip s /\ forallb isspace ws = true.
Proof.
  induction s as [|c s (ws & IH & Hws)]; simpl; [now exists []|].
  destruct (isspace c) eqn:E; [|now exists []].
  exists (c :: ws). simpl. rewrite E, Hws. now rewrite <- IH.
Qed.

(** The body ends where the lookahead holds. *)
Lemma body_split_stop (s : str) : stop_here (snd (body_split s)) = true.
Proof.
  induction s as [|c s IH]; rewrite body_split_eq.
  - reflexivity.
  - destruct (stop_here (c :: s)) eqn:E; [exact E|].
    now destruct (body_split s).
Qed.

Lemma stop_here_inv (s : str) :
  stop_here s = true -> marker_here s = true \/ s = [] \/ s = [LF].
Proof.
  unfold stop_here. destruct (marker_here s); [now left|]. cbn [orb].
  destruct s as [|c [|x s]]; cbn [at_end]; try discriminate; auto.
  intros E. apply Ascii.eqb_eq in E. subst c. auto.
Qed.

(** A match, written out in the text: the marker of its time and date, the
    author and its colon, whitespace, the captured body in which no marker
    starts, and then the next marker or the end of the text. *)
Lemma match_here_source (s : str) (m : env) (r : str) :
  match_here s = Some (m, r) ->
  exists a ws,
    s = marker (group m "hora") (group m "data")
          ++ a ++ ":" :: ws ++ group m "mensagem" ++ r
    /\ a <> [] /\ forallb notcolon a = true /\ forallb isspace ws = true
    /\ markers_within (group m "mensagem") r = 0%nat
    /\ (marker_here r = true \/ r = [] \/ r = [LF]).
Proof.
  intros Hm. pose proof (match_here_body_no_marker _ _ _ Hm) as Hbody.
  revert Hm Hbody. rewrite match_here_scan. unfold scan_here.
  destruct (has_shape marker_shape s) as [s1|] eqn:H1; [|discriminate].
  destruct (split_author s1) as [s3|] eqn:H2; [|discriminate].
  pose proof (body_split_app (lstrip s3)) as H3.
  pose proof (body_split_stop (lstrip s3)) as H4.
  destruct (body_split (lstrip s3)) as [b r']. intros [= <- <-] Hbody.
  cbn [fst snd] in H3, H4.
  destruct (has_shape_marker_inv _ _ H1) as (Hs & _ & _).
  destruct (split_author_inv _ _ H2) as (a & Hs1 & Ha & Hc).
  destruct (lstrip_spaces s3) as (ws & Hs3 & Hws).
  exists a, ws.
  change (group _ "hora") with (firstn 5 (skipn 1 s)) in *.
  change (group _ "data") with (firstn 10 (skipn 8 s)) in *.
  change (group _ "mensagem") with b in *.
  repeat split; try assumption.
  - rewrite <- H3, <- Hs3, <- Hs1. exact Hs.
  - now apply stop_here_inv.
Qed.

(** C5: every record [(time, body)] stored under a date [d] comes from one
    marker of the text: the text holds the marker [[time, d]] followed by an
    author, a colon, whitespace and a stretch of text without marker that
    runs to the next marker or the end of the text, and the body is that
    stretch, stripped.  So the marker and the body occur in the text, and the
    record is under the date of the marker its body follows. *)
Theorem parse_record_source (self : WhatsAppParser) (text d : str)
    (recs : list record) (h b : str) :
  In (d, recs) (snd (parse self text)) -> In (h, b) recs ->
  (exists pre a ws raw post,
      text = pre ++ marker h d ++ a ++ ":" :: ws ++ raw ++ post
      /\ a <> [] /\ forallb notcolon a = true
      /\ forallb isspace ws = true
      /\ b = strip raw
      /\ markers_within raw post = 0%nat
      /\ (marker_here post = true \/ post = [] \/ post = [LF]))
  /\ occurs_in (marker h d) text /\ occurs_in b text.
Proof.
  intros H Hx.
  destruct (parse_record_match _ _ _ _ _ _ H Hx)
    as (pre & post & m & r & -> & Hm & -> & -> & ->).
  destruct (match_here_source _ _ _ Hm)
    as (a & ws & Hpost & Ha & Hc & Hws & Hbody & Hr).
  split; [|split].
  - exists pre, a, ws, (group m "mensagem"), r. rewrite Hpost at 1.
    repeat split; assumption.
  - exists pre, (a ++ ":" :: ws ++ group m "mensagem" ++ r).
    now rewrite Hpost at 1.
  - apply (occurs_in_trans _ (group m "mensagem")); [apply strip_occurs|].
    exists (pre ++ marker (group m "hora") (group m "data") ++ a ++ ":" :: ws),
           r.
    rewrite Hpost at 1.
    repeat (rewrite <- app_assoc; cbn [app]). reflexivity.
Qed.

Lemma parse_record_source_witness :
  (exists pre a ws raw post,
      multiline_text =
      pre ++ marker (txt "09:05") (txt "01/01/2024")
          ++ a ++ ":" :: ws ++ raw ++ post
      /\ a <> [] /\ forallb notcolon a = true
      /\ forallb isspace ws = true
      /\ txt "next" = strip raw
      /\ markers_within raw post = 0%nat
      /\ (marker_here post = true \/ post = [] \/ post = [LF]))
  /\ occurs_in (marker (txt "09:05") (txt "01/01/2024")) multiline_text
  /\ occurs_in (txt "next") multiline_text.
Proof.
  apply (parse_record_source (__init__ None) multiline_text (txt "01/01/2024")
           [(txt "09:00", txt "line1" ++ LF :: txt "line2");
            (txt "09:05", txt "next")]
           (txt "09:05") (txt "next")).
  - vm_compute. left. reflexivity.
  - right. left. reflexivity.
Defined.

(** The markers of a message that is followed by [rest]: its own marker,
    those that start in its author, those that start in its body, and those
    of [rest]. *)
Lemma count_markers_message (h d a b rest : str) :
  is_hora h = true -> is_data d = true ->
  exists extra,
    count_markers (marker h d ++ a ++ ":" :: b ++ rest) =
    S (extra + markers_within b rest + count_markers rest).
Proof.
  intros Hh Hd.
  pose proof (marker_here_marker h d (a ++ ":" :: b ++ rest) Hh Hd) as Hm.
  exists (markers_within (h ++ "," :: " " :: d ++ "]" :: a ++ [":"])
            (b ++ rest)).
  unfold marker in *. cbn [app] in *.
  unfold count_markers at 1. cbn [markers_within]. rewrite app_nil_r, Hm.
  fold (count_markers
          ((h ++ "," :: " " :: d ++ ["]"]) ++ a ++ ":" :: b ++ rest)).
  replace ((h ++ "," :: " " :: d ++ ["]"]) ++ a ++ ":" :: b ++ rest)
    with ((h ++ "," :: " " :: d ++ "]" :: a ++ [":"]) ++ b ++ rest)
    by (repeat (rewrite <- app_assoc; cbn [app]); reflexivity).
  rewrite !count_markers_app. lia.
Qed.

(** C4, as the code has it: in a text of three messages, each a marker, an
    author and a colon, that has no other marker than these three, with the
    dates D1, D2 and D1 again, the keys of the result are D1 then D2, in the
    order first seen, and under D1 are the records of the first and of the
    third message, in that order. *)
Theorem parse_order_messages (self : WhatsAppParser)
    (pre h1 h2 h3 D1 D2 a1 a2 a3 b1 b2 b3 : str) :
  is_hora h1 = true -> is_hora h2 = true -> is_hora h3 = true ->
  is_data D1 = true -> is_data D2 = true -> D1 <> D2 ->
  a1 <> [] -> forallb notcolon a1 = true ->
  a2 <> [] -> forallb notcolon a2 = true ->
  a3 <> [] -> forallb notcolon a3 = true ->
  count_markers
    (pre ++ marker h1 D1 ++ a1 ++ ":" :: b1
         ++ marker h2 D2 ++ a2 ++ ":" :: b2
         ++ marker h3 D1 ++ a3 ++ ":" :: b3) = 3%nat ->
  snd (parse self
         (pre ++ marker h1 D1 ++ a1 ++ ":" :: b1
              ++ marker h2 D2 ++ a2 ++ ":" :: b2
              ++ marker h3 D1 ++ a3 ++ ":" :: b3)) =
  [(D1, [(h1, strip b1); (h3, strip b3)]); (D2, [(h2, strip b2)])].
Proof.
  intros Hh1 Hh2 Hh3 Hd1 Hd2 Hne Ha1 Hc1 Ha2 Hc2 Ha3 Hc3 Hcount.
  set (M3 := marker h3 D1 ++ a3 ++ ":" :: b3) in *.
  set (M2 := marker h2 D2 ++ a2 ++ ":" :: b2 ++ M3) in *.
  assert (E3 : M3 = marker h3 D1 ++ a3 ++ ":" :: b3 ++ [])
    by (unfold M3; now rewrite app_nil_r).
  rewrite count_markers_app in Hcount.
  destruct (count_markers_message h1 D1 a1 b1 M2 Hh1 Hd1) as [x1 Hx1].
  destruct (count_markers_message h2 D2 a2 b2 M3 Hh2 Hd2) as [x2 Hx2].
  destruct (count_markers_message h3 D1 a3 b3 [] Hh3 Hd1) as [x3 Hx3].
  rewrite <- E3 in Hx3. fold M2 in Hx2.
  rewrite Hx1, Hx2, Hx3 in Hcount.
  assert (Hpre : markers_within pre
                   (marker h1 D1 ++ a1 ++ ":" :: b1 ++ M2) = 0%nat) by lia.
  assert (Hb1 : markers_within b1 M2 = 0%nat) by lia.
  assert (Hb2 : markers_within b2 M3 = 0%nat) by lia.
  assert (Hb3 : markers_within b3 [] = 0%nat) by lia.
  assert (Hm2 : marker_here M2 = true) by now apply marker_here_marker.
  assert (Hm3 : marker_here M3 = true) by now apply marker_here_marker.
  destruct (finditer_message pre h1 D1 a1 b1 M2 Hh1 Hd1 Ha1 Hc1 Hpre Hb1
              (or_intror Hm2)) as (r1 & F1 & S1).
  destruct (finditer_message [] h2 D2 a2 b2 M3 Hh2 Hd2 Ha2 Hc2 eq_refl Hb2
              (or_intror Hm3)) as (r2 & F2 & S2).
  destruct (finditer_message [] h3 D1 a3 b3 [] Hh3 Hd1 Ha3 Hc3 eq_refl Hb3
              (or_introl eq_refl)) as (r3 & F3 & S3).
  cbn [app] in F2, F3. fold M2 in F2. rewrite <- E3 in F3.
  rewrite parse_returns, F1, F2, F3.
  change (finditer []) with (@nil env).
  cbn [parse_loop fold_left parse_step dict_append group
       String.eqb Ascii.eqb Bool.eqb].
  rewrite S1, S2, S3, (str_eqb_neq _ _ Hne). cbn [dict_append].
  rewrite str_eqb_refl. reflexivity.
Qed.

Lemma parse_order_messages_witness :
  snd (parse (__init__ None)
         (txt "chat: " ++ marker (txt "10:00") (txt "02/01/2024")
            ++ txt " A" ++ ":" :: (txt " x" ++ [LF])
            ++ marker (txt "11:00") (txt "01/01/2024")
            ++ txt " B" ++ ":" :: (txt " y" ++ [LF])
            ++ marker (txt "12:00") (txt "02/01/2024")
            ++ txt " C" ++ ":" :: txt " z")) =
  [(txt "02/01/2024",
    [(txt "10:00", strip (txt " x" ++ [LF]));
     (txt "12:00", strip (txt " z"))]);
   (txt "01/01/2024", [(txt "11:00", strip (txt " y" ++ [LF]))])].
Proof.
  apply (parse_order_messages (__init__ None) (txt "chat: ")
           (txt "10:00") (txt "11:00") (txt "12:00")
           (txt "02/01/2024") (txt "01/01/2024")
           (txt " A") (txt " B") (txt " C")
           (txt " x" ++ [LF]) (txt " y" ++ [LF]) (txt " z"));
    try reflexivity; discriminate.
Defined.

(** C4 as stated fails: a text whose well-formed markers carry the dates
    D1, D2, D1, the second marker standing where the author of the first is
    looked for, parses to the single key D1. *)
Lemma marker_order_lost :
  marker_dates swallowed_marker_text =
  [txt "01/01/2024"; txt "02/01/2024"; txt "01/01/2024"]
  /\ count_markers swallowed_marker_text = 3%nat
  /\ snd (parse (__init__ None) swallowed_marker_text) =
     [(txt "01/01/2024",
       [(txt "10:00", txt "00, 02/01/2024] A: x");
        (txt "12:00", txt "y")])]
  /\ ~ dates_in_marker_order swallowed_marker_text.
Proof.
  split; [reflexivity|]. split; [reflexivity|].
  split; [vm_compute; reflexivity|].
  intros H.
  destruct (H (__init__ None) (txt "01/01/2024") (txt "02/01/2024"))
    as [Hkeys _].
  - discriminate.
  - reflexivity.
  - vm_compute in Hkeys. discriminate Hkeys.
Qed.
